(** * psshlib.api: a shallow embedding of [src/psshlib/api.py]

    The module exposes three operations, [call], [copy] and [slurp], which
    build one task per host, hand the tasks to the engine ([Manager]) and
    return the mapping assembled by a result builder.

    Python values are embedded as [pyval]; exceptions are explicit
    ([exn]); the file system, and the order in which directories, tasks and
    the engine run come into being, are threaded through a small
    state-and-exception monad. *)

From Stdlib Require Import ZArith.
From stdpp Require Import base tactics option list strings countable gmap.

Local Open Scope string_scope.
Local Open Scope list_scope.

(** ** Python values *)

(** The values that flow through the module: [None], byte strings
    ([basestring]), integers and sequences ([PyTuple]: the module only takes
    the length of a sequence, indexes it and iterates over it). A host entry
    is a string or a sequence; port and user are [None], strings or integers. *)
#[local] Unset Elimination Schemes.
Inductive pyval : Type :=
  | PyNone
  | PyStr (s : string)
  | PyInt (z : Z)
  | PyTuple (l : list pyval).
#[local] Set Elimination Schemes.

Section pyval_rect.
Variable P : pyval -> Prop.
Hypothesis HNone : P PyNone.
Hypothesis HStr : forall s, P (PyStr s).
Hypothesis HInt : forall z, P (PyInt z).
Hypothesis HTuple : forall l, Forall P l -> P (PyTuple l).

Fixpoint pyval_ind_nested (v : pyval) : P v :=
  match v with
  | PyNone => HNone
  | PyStr s => HStr s
  | PyInt z => HInt z
  | PyTuple l =>
      HTuple l
        ((fix go (l : list pyval) : Forall P l :=
            match l with
            | [] => Forall_nil_2 P
            | x :: l' => Forall_cons_2 P x l' (pyval_ind_nested x) (go l')
            end) l)
  end.
End pyval_rect.

Fixpoint pyval_enc (v : pyval) : gen_tree (string + Z) :=
  match v with
  | PyNone => GenNode 0 []
  | PyStr s => GenLeaf (inl s)
  | PyInt z => GenLeaf (inr z)
  | PyTuple l => GenNode 1 (map pyval_enc l)
  end.

Fixpoint pyval_dec (t : gen_tree (string + Z)) : pyval :=
  match t with
  | GenLeaf (inl s) => PyStr s
  | GenLeaf (inr z) => PyInt z
  | GenNode 0 _ => PyNone
  | GenNode _ l => PyTuple (map pyval_dec l)
  end.

Lemma pyval_dec_enc (v : pyval) : pyval_dec (pyval_enc v) = v.
Proof.
  induction v as [| s | z | l IH] using pyval_ind_nested; simpl; try reflexivity.
  f_equal. induction IH as [| x l' Hx _ IHl]; simpl; [reflexivity |].
  now rewrite Hx, IHl.
Qed.

Lemma pyval_enc_inj (x y : pyval) : pyval_enc x = pyval_enc y -> x = y.
Proof.
  intros H. rewrite <- (pyval_dec_enc x), <- (pyval_dec_enc y). now rewrite H.
Qed.

#[global] Instance pyval_eq_dec : EqDecision pyval.
Proof.
  intros x y. destruct (decide (pyval_enc x = pyval_enc y)) as [H | H].
  - left. exact (pyval_enc_inj x y H).
  - right. intros ->. now apply H.
Defined.

#[global] Instance pyval_countable : Countable pyval :=
  inj_countable' pyval_enc pyval_dec pyval_dec_enc.

(** Truth value of an object, as tested by [if v:] and by [a or b]. *)
Definition truthy (v : pyval) : bool :=
  match v with
  | PyNone => false
  | PyStr "" => false
  | PyStr _ => true
  | PyInt z => negb (z =? 0)%Z
  | PyTuple [] => false
  | PyTuple _ => true
  end.

(** [a or b] *)
Definition py_or (a b : pyval) : pyval := if truthy a then a else b.

(** [sep.join(l)] on a list of strings. *)
Fixpoint join (sep : string) (l : list string) : string :=
  match l with
  | [] => ""
  | [s] => s
  | s :: l' => s +:+ sep +:+ join sep l'
  end.

(** Exceptions the module can raise or let through. *)
Inductive exn : Type :=
  | TypeError
  | ValueError
  | IndexError
  | AttributeError
  | OSError
  | FatalError
  | SystemExit (code : Z).

#[global] Instance exn_eq_dec : EqDecision exn.
Proof. solve_decision. Defined.

(** ** Objects of the module and of its collaborators *)

(** [class Error]: returned instead of a result for a host. *)
Inductive outcome : Type :=
  | Error (msg : string)
  | Result (exitstatus out err : pyval).

#[global] Instance outcome_eq_dec : EqDecision outcome.
Proof. solve_decision. Defined.

(** [psshlib.task.Task]: the class is imported, not defined, by the module;
    the record holds the constructor arguments the module passes and the
    attributes the module reads back once the task has finished. *)
Module Task.
Record t : Type := mk {
  host : pyval;
  port : pyval;
  user : pyval;
  cmd : list pyval;
  stdin : pyval;
  verbose : bool;
  quiet : bool;
  print_out : bool;
  inline : bool;
  inline_stdout : bool;
  failures : list string;
  exitstatus : pyval;
  outputbuffer : pyval;
  errorbuffer : pyval
}.
End Task.

(** [class Options]. The class defines fourteen attributes. The attributes
    [options], [extra] and [localdir], which the copy and slurp code reads,
    are not defined by the class: an instance has them only if the caller
    set them, which the record tracks with [option] ([None]: absent, reading
    it raises [AttributeError]). *)
Module Options.
Record t : Type := mk {
  limit : Z;
  timeout : Z;
  askpass : bool;
  outdir : pyval;
  errdir : pyval;
  ssh_options : list pyval;
  ssh_extra : list pyval;
  verbose : bool;
  quiet : bool;
  print_out : bool;
  inline : bool;
  inline_stdout : bool;
  input_stream : pyval;
  recursive : bool;
  options : option (list pyval);
  extra : option (list pyval);
  localdir : option pyval
}.
End Options.

(** The three result builders; each instance holds [finished_tasks]. *)
Inductive builder_class : Type :=
  | CallOutputBuilder
  | CopyOutputBuilder
  | SlurpOutputBuilder.

Module Builder.
Record t : Type := mk {
  class : builder_class;
  finished_tasks : list Task.t
}.
End Builder.

(** [psshlib.manager.Manager]: the constructor arguments the module passes,
    and the tasks added so far. *)
Module Manager.
Record t : Type := mk {
  limit : Z;
  timeout : Z;
  askpass : bool;
  outdir : pyval;
  errdir : pyval;
  callbacks : Builder.t;
  tasks : list Task.t
}.
End Manager.

(** ** The result builders *)

(** [finished(self, task, n)]: [self.finished_tasks.append(task)]. *)
Definition finished (b : Builder.t) (task : Task.t) (n : nat) : Builder.t :=
  Builder.mk (Builder.class b) (Builder.finished_tasks b ++ [task]).

(** The value the loop body of [result] stores under [task.host]. *)
Definition entry (manager : Manager.t) (task : Task.t) : outcome :=
  match Task.failures task with
  | _ :: _ => Error (join ", " (Task.failures task))
  | [] => Result (Task.exitstatus task)
                 (py_or (Task.outputbuffer task) (Manager.outdir manager))
                 (py_or (Task.errorbuffer task) (Manager.errdir manager))
  end.

(** [_CallOutputBuilder.result(self, manager)] *)
Definition _CallOutputBuilder_result
    (finished_tasks : list Task.t) (manager : Manager.t) : gmap pyval outcome :=
  foldl (fun ret task =>
           match Task.failures task with
           | _ :: _ => <[Task.host task := Error (join ", " (Task.failures task))]> ret
           | [] => <[Task.host task :=
                       Result (Task.exitstatus task)
                              (py_or (Task.outputbuffer task) (Manager.outdir manager))
                              (py_or (Task.errorbuffer task) (Manager.errdir manager))]> ret
           end) ∅ finished_tasks.

(** [_CopyOutputBuilder.result(self, manager)] *)
Definition _CopyOutputBuilder_result
    (finished_tasks : list Task.t) (manager : Manager.t) : gmap pyval outcome :=
  foldl (fun ret task =>
           match Task.failures task with
           | _ :: _ => <[Task.host task := Error (join ", " (Task.failures task))]> ret
           | [] => <[Task.host task :=
                       Result (Task.exitstatus task)
                              (py_or (Task.outputbuffer task) (Manager.outdir manager))
                              (py_or (Task.errorbuffer task) (Manager.errdir manager))]> ret
           end) ∅ finished_tasks.

(** [_SlurpOutputBuilder.result(self, manager)] *)
Definition _SlurpOutputBuilder_result
    (finished_tasks : list Task.t) (manager : Manager.t) : gmap pyval outcome :=
  foldl (fun ret task =>
           match Task.failures task with
           | _ :: _ => <[Task.host task := Error (join ", " (Task.failures task))]> ret
           | [] => <[Task.host task :=
                       Result (Task.exitstatus task)
                              (py_or (Task.outputbuffer task) (Manager.outdir manager))
                              (py_or (Task.errorbuffer task) (Manager.errdir manager))]> ret
           end) ∅ finished_tasks.

(** Dispatch on the class of the builder handed to the engine. *)
Definition result (b : Builder.t) (manager : Manager.t) : gmap pyval outcome :=
  match Builder.class b with
  | CallOutputBuilder => _CallOutputBuilder_result (Builder.finished_tasks b) manager
  | CopyOutputBuilder => _CopyOutputBuilder_result (Builder.finished_tasks b) manager
  | SlurpOutputBuilder => _SlurpOutputBuilder_result (Builder.finished_tasks b) manager
  end.

(** ** Pure helpers: results, sequences, unpacking *)

(** Outcome of an expression that may raise. *)
Inductive pyres (A : Type) : Type :=
  | Returns (a : A)
  | Raises (e : exn).
Arguments Returns {A} a.
Arguments Raises {A} e.

(** [len(v)] *)
Definition py_len (v : pyval) : pyres nat :=
  match v with
  | PyStr s => Returns (String.length s)
  | PyTuple l => Returns (length l)
  | PyNone | PyInt _ => Raises TypeError
  end.

(** The one-character strings of [s], in order. *)
Fixpoint chars (s : string) : list pyval :=
  match s with
  | EmptyString => []
  | String c s' => PyStr (String c EmptyString) :: chars s'
  end.

(** The items [for x in v] runs over; [None] and integers are not iterable. *)
Definition py_iter (v : pyval) : pyres (list pyval) :=
  match v with
  | PyStr s => Returns (chars s)
  | PyTuple l => Returns l
  | PyNone | PyInt _ => Raises TypeError
  end.

(** [v[i]] for a non-negative index [i]. *)
Definition py_getitem (v : pyval) (i : nat) : pyres pyval :=
  match py_iter v with
  | Returns items => match items !! i with
                     | Some x => Returns x
                     | None => Raises IndexError
                     end
  | Raises e => Raises e
  end.

(** [host, port, user = item]: the target list of the [for] loops. *)
Definition unpack3 (item : pyval) : pyres (pyval * pyval * pyval) :=
  match py_iter item with
  | Returns [host; port; user] => Returns (host, port, user)
  | Returns _ => Raises ValueError
  | Raises e => Raises e
  end.

(** [_expand_host_port_user(lst)]: the body [return]s inside the loop, so
    only the first element of [lst] is looked at; an empty [lst] falls off
    the end of the function, which returns [None]. *)
Definition _expand_host_port_user (lst : list pyval) : pyres pyval :=
  match lst with
  | [] => Returns PyNone
  | v :: _ =>
      match v with
      | PyStr _ => Returns (PyTuple [v; PyNone; PyNone])
      | _ =>
          match py_len v with
          | Raises e => Raises e
          | Returns 1 =>
              match py_getitem v 0 with
              | Returns v0 => Returns (PyTuple [v0; PyNone; PyNone])
              | Raises e => Raises e
              end
          | Returns 2 =>
              match py_getitem v 0, py_getitem v 1 with
              | Returns v0, Returns v1 => Returns (PyTuple [v0; v1; PyNone])
              | Raises e, _ | _, Raises e => Raises e
              end
          | Returns _ => Returns v
          end
      end
  end.

(** What the callers' [for host, port, user in ...] obtains from a value:
    the items of the value, each unpacked into three names. *)
Fixpoint unpack_all (items : list pyval) : pyres (list (pyval * pyval * pyval)) :=
  match items with
  | [] => Returns []
  | item :: items' =>
      match unpack3 item with
      | Raises e => Raises e
      | Returns hpu =>
          match unpack_all items' with
          | Raises e => Raises e
          | Returns rest => Returns (hpu :: rest)
          end
      end
  end.

Definition iter_triples (v : pyval) : pyres (list (pyval * pyval * pyval)) :=
  match py_iter v with
  | Raises e => Raises e
  | Returns items => unpack_all items
  end.

(** The normalisation of one host entry that the docstring of
    [_expand_host_port_user] and the specification describe: a bare host, a
    (host, port) pair or a (host, port, user) triple becomes a full triple. *)
Definition host_triple_spec (v : pyval) : option (pyval * pyval * pyval) :=
  match v with
  | PyStr _ => Some (v, PyNone, PyNone)
  | PyTuple [host; port] => Some (host, port, PyNone)
  | PyTuple [host; port; user] => Some (host, port, user)
  | _ => None
  end.

(** A well-formed host entry, in the words of the docstring. *)
Definition host_entry (v : pyval) : Prop := is_Some (host_triple_spec v).

(** The list of triples the docstring promises: one per element, in order. *)
Fixpoint expand_spec (lst : list pyval) : option (list (pyval * pyval * pyval)) :=
  match lst with
  | [] => Some []
  | v :: lst' =>
      match host_triple_spec v, expand_spec lst' with
      | Some hpu, Some rest => Some (hpu :: rest)
      | _, _ => None
      end
  end.

(** ** The command builder for [call] *)

(** [_build_call_cmd(host, port, user, cmdline, options, extra)] *)
Definition _build_call_cmd
    (host port user cmdline : pyval) (options extra : list pyval) : list pyval :=
  let cmd := [PyStr "ssh"; host;
              PyStr "-o"; PyStr "NumberOfPasswordPrompts=1";
              PyStr "-o"; PyStr "SendEnv=PSSH_NODENUM PSSH_HOST"] in
  let cmd := match options with
             | _ :: _ => foldl (fun cmd opt => cmd ++ [PyStr "-o"; opt]) cmd options
             | [] => cmd
             end in
  let cmd := if truthy user then cmd ++ [PyStr "-l"; user] else cmd in
  let cmd := if truthy port then cmd ++ [PyStr "-p"; port] else cmd in
  let cmd := match extra with
             | _ :: _ => cmd ++ extra
             | [] => cmd
             end in
  let cmd := if truthy cmdline then cmd ++ [cmdline] else cmd in
  cmd.

(** [follows a b l]: the vector [l] contains [a] immediately followed by [b]. *)
Fixpoint follows (a b : pyval) (l : list pyval) : bool :=
  match l with
  | x :: l' =>
      match l' with
      | y :: _ => (bool_decide (x = a) && bool_decide (y = b)) || follows a b l'
      | [] => false
      end
  | [] => false
  end.

(** ** The world: file system and event log *)

(** What the claims about ordering observe. *)
Inductive event : Type :=
  | EvMakedirs (path : string)   (* [os.makedirs(path)] created [path] *)
  | EvMkdir (path : string)      (* [os.mkdir(path)] created [path] *)
  | EvTask (host : pyval)        (* a [Task] was constructed *)
  | EvAddTask (host : pyval)     (* the task was submitted: [manager.add_task] *)
  | EvRun.                       (* [manager.run()] was entered *)

#[global] Instance event_eq_dec : EqDecision event.
Proof. solve_decision. Defined.

(** The file system is the set of directories that exist; [denied] are the
    names the operating system refuses to create ([OSError]). The nesting of
    directories is not represented. *)
Record World : Type := mkWorld {
  fs : gset string;
  denied : gset string;
  log : list event
}.

(** A statement: reads and updates the world, returns or raises. The world
    reached when an exception is raised is kept: directories created and
    tasks submitted before the exception stay so. *)
Definition M (A : Type) : Type := World -> pyres A * World.

Definition ret {A} (a : A) : M A := fun w => (Returns a, w).
Definition raise {A} (e : exn) : M A := fun w => (Raises e, w).
Definition bind {A B} (m : M A) (k : A -> M B) : M B :=
  fun w => match m w with
           | (Returns a, w') => k a w'
           | (Raises e, w') => (Raises e, w')
           end.
Definition lift {A} (r : pyres A) : M A := fun w => (r, w).
Definition emit (ev : event) : M unit :=
  fun w => (Returns tt, mkWorld (fs w) (denied w) (log w ++ [ev])).

(** [try: body except e: handler] for one exception class without subclasses. *)
Definition try_except {A} (body : M A) (e : exn) (handler : M A) : M A :=
  fun w => match body w with
           | (Raises e', w') => if decide (e' = e) then handler w' else (Raises e', w')
           | r => r
           end.

#[global] Instance M_ret : MRet M := @ret.
#[global] Instance M_bind : MBind M := fun A B k m => bind m k.

(** [for item in items: body], threading the loop state [s]. *)
Fixpoint for_each {S : Type} (items : list pyval) (body : pyval -> S -> M S) (s : S)
    : M S :=
  match items with
  | [] => ret s
  | item :: items' => s' ← body item s; for_each items' body s'
  end.

(** [os.path.exists(path)] *)
Definition os_path_exists (path : pyval) : M bool :=
  match path with
  | PyStr p => fun w => (Returns (bool_decide (p ∈ fs w)), w)
  | _ => raise TypeError
  end.

Definition create_dir (ev : string -> event) (path : pyval) : M unit :=
  match path with
  | PyStr p =>
      fun w =>
        if bool_decide (p ∈ fs w) || bool_decide (p ∈ denied w)
        then (Raises OSError, w)
        else (Returns tt, mkWorld ({[ p ]} ∪ fs w) (denied w) (log w ++ [ev p]))
  | _ => raise TypeError
  end.

(** [os.makedirs(path)] *)
Definition os_makedirs : pyval -> M unit := create_dir EvMakedirs.

(** [os.mkdir(path)] *)
Definition os_mkdir : pyval -> M unit := create_dir EvMkdir.

(** [sys.exit(code)] *)
Definition sys_exit {A} (code : Z) : M A := raise (SystemExit code).

(** [if d and not os.path.exists(d): os.makedirs(d)], the statement each
    operation runs for [opts.outdir] and for [opts.errdir]. *)
Definition makedirs_if_missing (d : pyval) : M unit :=
  if truthy d
  then present ← os_path_exists d;
       if present : bool then ret tt else os_makedirs d
  else ret tt.

(** Reading an attribute the class does not define. *)
Definition getattr {A} (field : option A) : pyres A :=
  match field with
  | Some a => Returns a
  | None => Raises AttributeError
  end.

(** The constructors of the result builders, applied to the positional
    arguments of the call site. [_CopyOutputBuilder.__init__(self, dst)]
    takes one; the other two take none. *)
Definition _CallOutputBuilder_init (args : list pyval) : pyres Builder.t :=
  match args with
  | [] => Returns (Builder.mk CallOutputBuilder [])
  | _ => Raises TypeError
  end.

Definition _CopyOutputBuilder_init (args : list pyval) : pyres Builder.t :=
  match args with
  | [dst] => Returns (Builder.mk CopyOutputBuilder [])
  | _ => Raises TypeError
  end.

Definition _SlurpOutputBuilder_init (args : list pyval) : pyres Builder.t :=
  match args with
  | [] => Returns (Builder.mk SlurpOutputBuilder [])
  | _ => Raises TypeError
  end.

(** Modelled from the spec: the constructor of [psshlib.task.Task], which is
    not in the module. A task is created by the caller before submission,
    with an empty failure list and no exit status yet. *)
Definition Task_new (host port user : pyval) (cmd : list pyval) (opts : Options.t)
    : M Task.t :=
  emit (EvTask host) ;;
  ret (Task.mk host port user cmd
         (Options.input_stream opts) (Options.verbose opts) (Options.quiet opts)
         (Options.print_out opts) (Options.inline opts) (Options.inline_stdout opts)
         [] PyNone PyNone PyNone).

(** Modelled from the spec: [Manager.add_task], which is not in the module.
    Submitted tasks enter the pending queue in submission order. *)
Definition add_task (manager : Manager.t) (t : Task.t) : M Manager.t :=
  emit (EvAddTask (Task.host t)) ;;
  ret (Manager.mk (Manager.limit manager) (Manager.timeout manager)
         (Manager.askpass manager) (Manager.outdir manager) (Manager.errdir manager)
         (Manager.callbacks manager) (Manager.tasks manager ++ [t])).

(** What a run of the engine comes to: a fatal abort, or every task
    finished, listed in the order in which the tasks finished. *)
Inductive engine_outcome : Type :=
  | EngineFatal
  | EngineDone (finished_in_order : list Task.t).

(** Engines used to exercise the operations. *)
Definition engine_fatal : Manager.t -> engine_outcome := fun _ => EngineFatal.

Definition engine_all_ok : Manager.t -> engine_outcome :=
  fun manager =>
    EngineDone (map (fun t =>
      Task.mk (Task.host t) (Task.port t) (Task.user t) (Task.cmd t) (Task.stdin t)
        (Task.verbose t) (Task.quiet t) (Task.print_out t) (Task.inline t)
        (Task.inline_stdout t) [] (PyInt 0) (PyStr "ok") PyNone)
      (Manager.tasks manager)).

(** [str(v)] on strings; the rendering of other values is immaterial here. *)
Definition str_of_string (v : pyval) : string :=
  match v with
  | PyStr s => s
  | _ => "?"
  end.

#[global] Instance pyres_ret : MRet pyres := @Returns.
#[global] Instance pyres_bind : MBind pyres :=
  fun A B k r => match r with
                 | Returns a => k a
                 | Raises e => Raises e
                 end.

(** ** The operations *)

Section API.

(** [psshlib.cli.DEFAULT_PARALLELISM] and [DEFAULT_TIMEOUT] are imported
    constants; [py_str] is the builtin [str], used by the [%s] conversions;
    [engine] is the behaviour of the engine on the tasks it was given. *)
Context (DEFAULT_PARALLELISM DEFAULT_TIMEOUT : Z).
Context (py_str : pyval -> string).
Context (engine : Manager.t -> engine_outcome).

(** [Options()]: an instance with the attributes of the class only. *)
Definition Options_default : Options.t :=
  Options.mk DEFAULT_PARALLELISM DEFAULT_TIMEOUT false PyNone PyNone [] []
    false false false true false PyNone true None None None.

(** Modelled from the spec: [Manager.run], which is not in the module. The
    engine runs the submitted tasks; it invokes the completion hook
    [finished] once per finished task, with the count of tasks completed so
    far, in the order in which the tasks finish, then the finalize hook
    [result], whose mapping it returns; or it raises [FatalError]. *)
Definition Manager_run (manager : Manager.t) : M (gmap pyval outcome) :=
  emit EvRun ;;
  match engine manager with
  | EngineFatal => raise FatalError
  | EngineDone finished_in_order =>
      let callbacks :=
        foldl (fun cb '(n, task) => finished cb task n)
              (Manager.callbacks manager)
              (zip (seq 1 (length finished_in_order)) finished_in_order) in
      ret (result callbacks manager)
  end.

(** The closing statement of the three operations:
    [try: return manager.run() except FatalError: sys.exit(1)]. *)
Definition run_or_exit (manager : Manager.t) : M (gmap pyval outcome) :=
  try_except (Manager_run manager) FatalError (sys_exit 1).

(** Lines 125-128 of [call], repeated in [copy] (199-202) and in [slurp]
    (285-288): the two output directories. *)
Definition output_dirs (opts : Options.t) : M unit :=
  makedirs_if_missing (Options.outdir opts) ;;
  makedirs_if_missing (Options.errdir opts).

(** [call], lines 129-146: the manager and one task per item. *)
Definition call_tasks (hosts : list pyval) (cmdline : pyval) (opts : Options.t)
    : M Manager.t :=
  callbacks ← lift (_CallOutputBuilder_init []);
  let manager := Manager.mk (Options.limit opts) (Options.timeout opts)
                   (Options.askpass opts) (Options.outdir opts)
                   (Options.errdir opts) callbacks [] in
  triples ← lift (_expand_host_port_user hosts);
  items ← lift (py_iter triples);
  for_each items
    (fun item manager =>
       '(host, port, user) ← lift (unpack3 item);
       let cmd := _build_call_cmd host port user cmdline
                    (Options.ssh_options opts) (Options.ssh_extra opts) in
       t ← Task_new host port user cmd opts;
       add_task manager t)
    manager.

(** [call], lines 125-146: everything before the closing [try]. *)
Definition call_setup (hosts : list pyval) (cmdline : pyval) (opts : Options.t)
    : M Manager.t :=
  output_dirs opts ;;
  call_tasks hosts cmdline opts.

(** [call(hosts, cmdline, opts)] *)
Definition call (hosts : list pyval) (cmdline : pyval) (opts : Options.t)
    : M (gmap pyval outcome) :=
  manager ← call_setup hosts cmdline opts;
  run_or_exit manager.

(** [_build_copy_cmd(host, port, user, src, dst, opts)] *)
Definition _build_copy_cmd (host port user src dst : pyval) (opts : Options.t)
    : pyres (list pyval) :=
  let cmd := [PyStr "scp"; PyStr "-qC"] in
  options ← getattr (Options.options opts);
  let cmd := foldl (fun cmd opt => cmd ++ [PyStr "-o"; opt]) cmd options in
  let cmd := if truthy port then cmd ++ [PyStr "-P"; port] else cmd in
  let cmd := if Options.recursive opts then cmd ++ [PyStr "-r"] else cmd in
  extra ← getattr (Options.extra opts);
  let cmd := cmd ++ extra in
  src_items ← py_iter src;
  let cmd := cmd ++ src_items in
  Returns (if truthy user
           then cmd ++ [PyStr (py_str user +:+ "@" +:+ py_str host +:+ ":" +:+ py_str dst)]
           else cmd ++ [PyStr (py_str host +:+ ":" +:+ py_str dst)]).

(** [copy], lines 203-218: the manager and one task per item. *)
Definition copy_tasks (hosts : list pyval) (src dst : pyval) (opts : Options.t)
    : M Manager.t :=
  callbacks ← lift (_CopyOutputBuilder_init []);
  let manager := Manager.mk (Options.limit opts) (Options.timeout opts)
                   (Options.askpass opts) (Options.outdir opts)
                   (Options.errdir opts) callbacks [] in
  triples ← lift (_expand_host_port_user hosts);
  items ← lift (py_iter triples);
  for_each items
    (fun item manager =>
       '(host, port, user) ← lift (unpack3 item);
       cmd ← lift (_build_copy_cmd host port user src dst opts);
       t ← Task_new host port user cmd opts;
       add_task manager t)
    manager.

(** [copy], lines 199-218. *)
Definition copy_setup (hosts : list pyval) (src dst : pyval) (opts : Options.t)
    : M Manager.t :=
  output_dirs opts ;;
  copy_tasks hosts src dst opts.

(** [copy(hosts, src, dst, opts)] *)
Definition copy (hosts : list pyval) (src dst : pyval) (opts : Options.t)
    : M (gmap pyval outcome) :=
  manager ← copy_setup hosts src dst opts;
  run_or_exit manager.

(** [_slurp_make_local_dirs(hosts, dst, opts)] *)
Definition _slurp_make_local_dirs (hosts : list pyval) (dst : pyval) (opts : Options.t)
    : M unit :=
  present ← os_path_exists dst;
  (if present : bool then ret tt else os_makedirs dst) ;;
  triples ← lift (_expand_host_port_user hosts);
  items ← lift (py_iter triples);
  for_each items
    (fun item (_ : unit) =>
       '(host, port, user) ← lift (unpack3 item);
       localdir ← lift (getattr (Options.localdir opts));
       let dirname := if truthy localdir
                      then PyStr (py_str localdir +:+ "/" +:+ py_str host)
                      else host in
       present ← os_path_exists dirname;
       if present : bool then ret tt else os_mkdir dirname)
    tt.

(** [_build_slurp_cmd(host, port, user, src, dst, opts)] *)
Definition _build_slurp_cmd (host port user src dst : pyval) (opts : Options.t)
    : pyres (list pyval) :=
  let cmd := [PyStr "scp"; PyStr "-qC"] in
  options ← getattr (Options.options opts);
  let cmd := foldl (fun cmd opt => cmd ++ [PyStr "-o"; opt]) cmd options in
  let cmd := if truthy port then cmd ++ [PyStr "-P"; port] else cmd in
  let cmd := if Options.recursive opts then cmd ++ [PyStr "-r"] else cmd in
  extra ← getattr (Options.extra opts);
  let cmd := cmd ++ extra in
  let cmd := if truthy user
             then cmd ++ [PyStr (py_str user +:+ "@" +:+ py_str host +:+ ":" +:+ py_str src)]
             else cmd ++ [PyStr (py_str host +:+ ":" +:+ py_str src)] in
  Returns (cmd ++ [dst]).

(** [slurp], lines 289-308: the manager and one task per item. *)
Definition slurp_tasks (hosts : list pyval) (src dst : pyval) (opts : Options.t)
    : M Manager.t :=
  callbacks ← lift (_SlurpOutputBuilder_init []);
  let manager := Manager.mk (Options.limit opts) (Options.timeout opts)
                   (Options.askpass opts) (Options.outdir opts)
                   (Options.errdir opts) callbacks [] in
  triples ← lift (_expand_host_port_user hosts);
  items ← lift (py_iter triples);
  for_each items
    (fun item manager =>
       '(host, port, user) ← lift (unpack3 item);
       localdir ← lift (getattr (Options.localdir opts));
       let localpath :=
         if truthy localdir
         then PyStr (py_str localdir +:+ "/" +:+ py_str host +:+ "/" +:+ py_str dst)
         else PyStr (py_str host +:+ "/" +:+ py_str dst) in
       cmd ← lift (_build_slurp_cmd host port user src localpath opts);
       t ← Task_new host port user cmd opts;
       add_task manager t)
    manager.

(** [slurp], lines 284-308. *)
Definition slurp_setup (hosts : list pyval) (src dst : pyval) (opts : Options.t)
    : M Manager.t :=
  _slurp_make_local_dirs hosts dst opts ;;
  output_dirs opts ;;
  slurp_tasks hosts src dst opts.

(** [slurp(hosts, src, dst, opts)] *)
Definition slurp (hosts : list pyval) (src dst : pyval) (opts : Options.t)
    : M (gmap pyval outcome) :=
  manager ← slurp_setup hosts src dst opts;
  run_or_exit manager.

End API.


(** ** Predicates used in the statements *)

(** The loop body of [result] as one update of the mapping. *)
Definition store (manager : Manager.t) (ret : gmap pyval outcome) (task : Task.t)
    : gmap pyval outcome :=
  <[Task.host task := entry manager task]> ret.

(** The exceptions a statement may raise lie within [allowed]. *)
Definition raises_within {A : Type} (allowed : exn -> Prop) (m : M A) : Prop :=
  forall (w : World) (e : exn), (m w).1 = Raises e -> allowed e.

Definition pure_within {A : Type} (allowed : exn -> Prop) (r : pyres A) : Prop :=
  forall e : exn, r = Raises e -> allowed e.

(** The exceptions of the statements that precede the engine run. *)
Definition call_setup_exn (e : exn) : Prop :=
  e = TypeError \/ e = ValueError \/ e = OSError.

Definition setup_exn (e : exn) : Prop :=
  e = TypeError \/ e = ValueError \/ e = OSError \/ e = AttributeError.

(** Events that concern a task or the engine, as opposed to directories. *)
Definition task_event (ev : event) : bool :=
  match ev with
  | EvTask _ | EvAddTask _ | EvRun => true
  | EvMakedirs _ | EvMkdir _ => false
  end.

(** [w'] is reached from [w] by creating directories and appending [evs]
    to the log. *)
Definition extends_by (w w' : World) (evs : list event) : Prop :=
  fs w ⊆ fs w' /\ denied w' = denied w /\ log w' = log w ++ evs.

(** Every event the statement [m] appends to the log satisfies [P]; the
    statement removes no directory. *)
Definition emits {A : Type} (P : event -> bool) (m : M A) : Prop :=
  forall w : World,
    exists evs, extends_by w (m w).2 evs /\ Forall (fun ev => P ev = true) evs.

(** The events of [m] are directory creations followed by task events. *)
Definition dirs_before_tasks {A : Type} (m : M A) : Prop :=
  forall w : World,
    exists dirs tasks,
      extends_by w (m w).2 (dirs ++ tasks) /\
      Forall (fun ev => task_event ev = false) dirs /\
      Forall (fun ev => task_event ev = true) tasks.

(** The remote end of an [scp] transfer as the two builders format it:
    [user@host:path] when a user is given, [host:path] otherwise. *)
Definition remote_spec (py_str : pyval -> string) (user host path : pyval) : pyval :=
  if truthy user
  then PyStr (py_str user +:+ "@" +:+ py_str host +:+ ":" +:+ py_str path)
  else PyStr (py_str host +:+ ":" +:+ py_str path).

(** The option, port and recursion flags of the two [scp] builders. *)
Definition scp_flags (port : pyval) (options : list pyval) (recursive : bool) : list pyval :=
  flat_map (fun opt => [PyStr "-o"; opt]) options
  ++ (if truthy port then [PyStr "-P"; port] else [])
  ++ (if recursive then [PyStr "-r"] else []).

(** The events of constructing and submitting one task per triple. *)
Definition task_events (triples : list (pyval * pyval * pyval)) : list event :=
  flat_map (fun '(host, _, _) => [EvTask host; EvAddTask host]) triples.

(** How many tasks were submitted, read off the events. *)
Fixpoint submitted (evs : list event) : nat :=
  match evs with
  | [] => 0
  | EvAddTask _ :: evs' => S (submitted evs')
  | _ :: evs' => submitted evs'
  end.

(** The statement [m] submits at most [n] tasks. *)
Definition submits_at_most {A : Type} (n : nat) (m : M A) : Prop :=
  forall w : World, exists evs, log (m w).2 = log w ++ evs /\ submitted evs <= n.

(** The two steps of [_slurp_make_local_dirs]: the destination (lines
    246-247) and the loop over the hosts (lines 248-254). *)
Definition slurp_dst_dir (dst : pyval) : M unit :=
  present ← os_path_exists dst;
  if present : bool then ret tt else os_makedirs dst.

Definition slurp_host_dirs (py_str : pyval -> string) (hosts : list pyval) (opts : Options.t)
    : M unit :=
  triples ← lift (_expand_host_port_user hosts);
  items ← lift (py_iter triples);
  for_each items
    (fun item (_ : unit) =>
       '(host, port, user) ← lift (unpack3 item);
       localdir ← lift (getattr (Options.localdir opts));
       let dirname := if truthy localdir
                      then PyStr (py_str localdir +:+ "/" +:+ py_str host)
                      else host in
       present ← os_path_exists dirname;
       if present : bool then ret tt else os_mkdir dirname)
    tt.

(** The items the loops of the operations run over. *)
Definition items_of (hosts : list pyval) : pyres (list pyval) :=
  match _expand_host_port_user hosts with
  | Returns returned => py_iter returned
  | Raises e => Raises e
  end.

(** Events other than the construction or submission of a task. *)
Definition no_task (ev : event) : bool :=
  match ev with
  | EvTask _ | EvAddTask _ => false
  | EvMakedirs _ | EvMkdir _ | EvRun => true
  end.

(** ** Sample inputs *)

Definition w0 : World := mkWorld ∅ ∅ [].

(** A finished task, as the engine hands it to the completion hook. *)
Definition done_task (host : pyval) (failures : list string)
    (exitstatus outputbuffer errorbuffer : pyval) : Task.t :=
  Task.mk host PyNone PyNone [] PyNone false false false true false
    failures exitstatus outputbuffer errorbuffer.

(** A manager configured with the two output directories. *)
Definition manager_with (outdir errdir : pyval) : Manager.t :=
  Manager.mk 32 60 false outdir errdir (Builder.mk CallOutputBuilder []) [].

(** An options object on which the attributes read by the copy and slurp
    code have been set. *)
Definition options_with (outdir : pyval) : Options.t :=
  Options.mk 32 60 false outdir PyNone [] [] false false false true false PyNone true
    (Some []) (Some []) (Some PyNone).

(** Three host triples wrapped in one tuple, and one triple of
    three-character strings. *)
Definition hosts_wrapped : list pyval :=
  [PyTuple [PyTuple [PyStr "web1"; PyInt 22; PyStr "root"];
            PyTuple [PyStr "web2"; PyInt 22; PyStr "root"];
            PyTuple [PyStr "web3"; PyInt 22; PyStr "root"]]].

Definition hosts_three_chars : list pyval :=
  [PyTuple [PyStr "abc"; PyStr "222"; PyStr "usr"]].

(** Options with both output directories configured; a world in which
    both exist already, and one in which the first cannot be created. *)
Definition options_out_err : Options.t :=
  Options.mk 32 60 false (PyStr "out") (PyStr "err") [] [] false false false true false
    PyNone true (Some []) (Some []) (Some PyNone).

Definition w_prepared : World := mkWorld ({[ "out" ]} ∪ {[ "err" ]}) ∅ [].


(** Finished tasks used below: two for the same host, the first failed and
    the second succeeded; one for another host; and tasks run with [inline]
    off, whose output went to the output directories and whose buffers are
    therefore empty. *)
Definition task_failed : Task.t :=
  done_task (PyStr "host1") ["Timed out"; "Killed"] PyNone (PyStr "") (PyStr "").

Definition task_retried : Task.t :=
  done_task (PyStr "host1") [] (PyInt 0) (PyStr "up 3 days") (PyStr "").

Definition task_other : Task.t :=
  done_task (PyStr "host2") [] (PyInt 0) (PyStr "up 9 days") (PyStr "").

Definition task_to_dir (host : string) : Task.t :=
  Task.mk (PyStr host) PyNone PyNone [] PyNone false false false false false
    [] (PyInt 0) (PyStr "") (PyStr "").

(** ** Properties of the result builders *)

Lemma store_is_loop_body (manager : Manager.t) (ret : gmap pyval outcome) (task : Task.t) :
  match Task.failures task with
  | _ :: _ => <[Task.host task := Error (join ", " (Task.failures task))]> ret
  | [] => <[Task.host task :=
              Result (Task.exitstatus task)
                     (py_or (Task.outputbuffer task) (Manager.outdir manager))
                     (py_or (Task.errorbuffer task) (Manager.errdir manager))]> ret
  end = store manager ret task.
Proof. unfold store, entry. now destruct (Task.failures task). Qed.

Lemma call_result_fold (fin : list Task.t) (manager : Manager.t) :
  _CallOutputBuilder_result fin manager = foldl (store manager) ∅ fin.
Proof.
  unfold _CallOutputBuilder_result. generalize (∅ : gmap pyval outcome).
  induction fin as [| t fin IH]; intros acc; simpl; [reflexivity |].
  now rewrite store_is_loop_body, IH.
Qed.

Lemma copy_result_is_call_result (fin : list Task.t) (manager : Manager.t) :
  _CopyOutputBuilder_result fin manager = _CallOutputBuilder_result fin manager.
Proof. reflexivity. Qed.

Lemma slurp_result_is_call_result (fin : list Task.t) (manager : Manager.t) :
  _SlurpOutputBuilder_result fin manager = _CallOutputBuilder_result fin manager.
Proof. reflexivity. Qed.

Lemma fold_store_snoc (manager : Manager.t) (acc : gmap pyval outcome)
    (fin : list Task.t) (t : Task.t) :
  foldl (store manager) acc (fin ++ [t]) = store manager (foldl (store manager) acc fin) t.
Proof. now rewrite foldl_app. Qed.

(** The entry found under a host is the one of the last finished task that
    carries this host. *)
Lemma fold_store_lookup_last (manager : Manager.t) (acc : gmap pyval outcome)
    (fin1 fin2 : list Task.t) (t : Task.t) :
  Forall (fun t' => Task.host t' ≠ Task.host t) fin2 ->
  foldl (store manager) acc (fin1 ++ t :: fin2) !! Task.host t = Some (entry manager t).
Proof.
  induction fin2 as [| x fin2 IH] using rev_ind; intros Hlater.
  - rewrite fold_store_snoc. unfold store. apply lookup_insert_eq.
  - apply Forall_app in Hlater as [Hfin2 Hx]. rewrite Forall_singleton in Hx.
    replace (fin1 ++ t :: fin2 ++ [x]) with ((fin1 ++ t :: fin2) ++ [x])
      by now rewrite <- app_assoc.
    rewrite fold_store_snoc. unfold store at 1.
    rewrite lookup_insert_ne by exact Hx. now apply IH.
Qed.

(** A host that no finished task carries has no entry. *)
Lemma fold_store_lookup_none (manager : Manager.t) (fin : list Task.t) (h : pyval) :
  Forall (fun t => Task.host t ≠ h) fin ->
  foldl (store manager) ∅ fin !! h = None.
Proof.
  induction fin as [| x fin IH] using rev_ind; intros Hall; [apply lookup_empty |].
  apply Forall_app in Hall as [Hfin Hx]. rewrite Forall_singleton in Hx.
  rewrite fold_store_snoc. unfold store at 1.
  rewrite lookup_insert_ne by exact Hx. now apply IH.
Qed.

(** The keys of the mapping are exactly the hosts of the finished tasks. *)
Lemma fold_store_dom (manager : Manager.t) (fin : list Task.t) :
  dom (foldl (store manager) ∅ fin) = list_to_set (map Task.host fin).
Proof.
  induction fin as [| x fin IH] using rev_ind; [simpl; apply dom_empty_L |].
  rewrite fold_store_snoc. unfold store at 1. rewrite dom_insert_L, IH.
  rewrite map_app, list_to_set_app_L. simpl.
  rewrite (right_id_L ∅ (∪)). apply (comm_L (∪)).
Qed.

(** C3, the claim as stated, fails: a finished task with a non-empty
    failure list is handed to the builder, yet the result does not map its
    host to the Error built from its failure reasons, because a task that
    finished later for the same host replaced the entry. *)
Lemma result_failed_task_overwritten :
  task_failed ∈ [task_failed; task_retried] /\
  Task.failures task_failed ≠ [] /\
  _CallOutputBuilder_result [task_failed; task_retried] (manager_with PyNone PyNone)
    !! Task.host task_failed
  ≠ Some (Error (join ", " (Task.failures task_failed))).
Proof.
  split; [apply list_elem_of_here |]. split; [discriminate |].
  vm_compute. discriminate.
Qed.

(** C3 (amended): for every finished task handed to a result builder that is
    not followed by a later finished task with the same host: if its failure
    list is non-empty, the result maps its host to an Error whose message is
    the failure reasons joined with ", "; if its failure list is empty, the
    result maps its host to the triple (exit status, output buffer or the
    manager's outdir, error buffer or the manager's errdir). The builder is a
    total function: a failed task yields a value in the mapping, never an
    exception. *)
Theorem result_entry_of_finished_task
    (fin1 fin2 : list Task.t) (t : Task.t) (manager : Manager.t) (b : builder_class) :
  Forall (fun t' => Task.host t' ≠ Task.host t) fin2 ->
  let ret := result (Builder.mk b (fin1 ++ t :: fin2)) manager in
  (Task.failures t ≠ [] ->
     ret !! Task.host t = Some (Error (join ", " (Task.failures t)))) /\
  (Task.failures t = [] ->
     ret !! Task.host t =
       Some (Result (Task.exitstatus t)
                    (py_or (Task.outputbuffer t) (Manager.outdir manager))
                    (py_or (Task.errorbuffer t) (Manager.errdir manager)))).
Proof.
  intros Hlater ret.
  assert (Hret : ret !! Task.host t = Some (entry manager t)).
  { subst ret. unfold result; simpl. destruct b;
      rewrite ?copy_result_is_call_result, ?slurp_result_is_call_result,
        call_result_fold; now apply fold_store_lookup_last. }
  rewrite Hret. unfold entry. split; intros Hf.
  - destruct (Task.failures t); [now destruct Hf | reflexivity].
  - now rewrite Hf.
Qed.

Lemma result_entry_of_finished_task_witness :
  result (Builder.mk CallOutputBuilder [task_retried; task_failed; task_other])
         (manager_with PyNone PyNone)
    !! PyStr "host1" = Some (Error "Timed out, Killed") /\
  result (Builder.mk SlurpOutputBuilder [task_other; task_failed; task_retried])
         (manager_with (PyStr "out") (PyStr "err"))
    !! PyStr "host2" = Some (Result (PyInt 0) (PyStr "up 9 days") (PyStr "err")).
Proof.
  split.
  - apply (result_entry_of_finished_task [task_retried] [task_other] task_failed
             (manager_with PyNone PyNone) CallOutputBuilder).
    + apply Forall_cons_2; [simpl; discriminate | apply Forall_nil_2].
    + discriminate.
  - apply (result_entry_of_finished_task [] [task_failed; task_retried] task_other
             (manager_with (PyStr "out") (PyStr "err")) SlurpOutputBuilder).
    + repeat (apply Forall_cons_2; [simpl; discriminate |]). apply Forall_nil_2.
    + reflexivity.
Defined.

(** C10: if two finished tasks carry the same host, each result builder
    keeps a single key for them, and the entry of the task that finished
    later (the last one for that host) replaces the entry of the earlier one;
    the mapping holds no two entries for one host. *)
Theorem result_last_writer_wins
    (fin1 fin2 fin3 : list Task.t) (t1 t2 : Task.t) (manager : Manager.t)
    (b : builder_class) :
  Task.host t1 = Task.host t2 ->
  Forall (fun t => Task.host t ≠ Task.host t2) fin3 ->
  let ret := result (Builder.mk b (fin1 ++ t1 :: fin2 ++ t2 :: fin3)) manager in
  ret !! Task.host t1 = Some (entry manager t2) /\
  NoDup (map fst (map_to_list ret)) /\
  dom ret = list_to_set (map Task.host (fin1 ++ fin2 ++ t2 :: fin3)).
Proof.
  intros Hsame Hlater ret.
  assert (Hfold : ret = foldl (store manager) ∅ (fin1 ++ t1 :: fin2 ++ t2 :: fin3)).
  { subst ret. unfold result; simpl. destruct b;
      now rewrite ?copy_result_is_call_result, ?slurp_result_is_call_result,
        call_result_fold. }
  split; [| split].
  - rewrite Hfold, Hsame.
    replace (fin1 ++ t1 :: fin2 ++ t2 :: fin3) with ((fin1 ++ t1 :: fin2) ++ t2 :: fin3)
      by now rewrite <- app_assoc.
    now apply fold_store_lookup_last.
  - apply NoDup_fst_map_to_list.
  - rewrite Hfold, fold_store_dom. rewrite !map_app, !list_to_set_app_L. simpl.
    rewrite !map_app, !list_to_set_app_L. simpl. rewrite Hsame.
    apply set_eq. intros h. rewrite !elem_of_union. tauto.
Qed.

Lemma result_last_writer_wins_witness :
  result (Builder.mk CopyOutputBuilder [task_failed; task_other; task_retried; task_other])
         (manager_with PyNone PyNone)
    !! PyStr "host1" = Some (Result (PyInt 0) (PyStr "up 3 days") PyNone).
Proof.
  apply (result_last_writer_wins [] [task_other] [task_other] task_failed task_retried
           (manager_with PyNone PyNone) CopyOutputBuilder).
  - reflexivity.
  - apply Forall_cons_2; [simpl; discriminate | apply Forall_nil_2].
Defined.

(** C8: two successfully finished tasks for distinct hosts whose output went
    to the output directories (their buffers are empty). The stdout and
    stderr fields of both entries are the configured directories themselves,
    identical for the two hosts: no per-host file location is reported. *)
Theorem result_reports_directory_for_every_host (outdir errdir : pyval) (b : builder_class) :
  let ret := result (Builder.mk b [task_to_dir "host1"; task_to_dir "host2"])
                    (manager_with outdir errdir) in
  ret !! PyStr "host1" = Some (Result (PyInt 0) outdir errdir) /\
  ret !! PyStr "host2" = Some (Result (PyInt 0) outdir errdir).
Proof.
  intros ret. subst ret. split; destruct b; vm_compute; reflexivity.
Qed.

(** ** Properties of the command builder *)

Lemma follows_here (a b : pyval) (l : list pyval) : follows a b (a :: b :: l) = true.
Proof.
  cbn [follows].
  now rewrite (bool_decide_eq_true_2 (a = a) eq_refl), (bool_decide_eq_true_2 (b = b) eq_refl).
Qed.

Lemma follows_app_r (a b : pyval) (l1 l2 : list pyval) :
  follows a b l2 = true -> follows a b (l1 ++ l2) = true.
Proof.
  intros H. induction l1 as [| x l1 IH]; [exact H |].
  simpl. destruct (l1 ++ l2) eqn:E.
  - destruct l1; [simpl in E; subst l2 |]; discriminate.
  - rewrite IH. apply orb_true_r.
Qed.

Lemma follows_pair_other (a b x y : pyval) : x ≠ a -> follows a b [x; y] = false.
Proof. intros H. cbn [follows]. now rewrite (bool_decide_eq_false_2 _ H). Qed.

Lemma append_options_fold (cmd options : list pyval) :
  foldl (fun cmd opt => cmd ++ [PyStr "-o"; opt]) cmd options
  = cmd ++ flat_map (fun opt => [PyStr "-o"; opt]) options.
Proof.
  revert cmd. induction options as [| opt options IH]; intros cmd; simpl.
  - now rewrite app_nil_r.
  - rewrite IH. now rewrite <- app_assoc.
Qed.

(** The vector in segments, in the order in which the builder appends them. *)
Lemma build_call_cmd_segments (host port user cmdline : pyval) (options extra : list pyval) :
  _build_call_cmd host port user cmdline options extra
  = ([PyStr "ssh"; host;
      PyStr "-o"; PyStr "NumberOfPasswordPrompts=1";
      PyStr "-o"; PyStr "SendEnv=PSSH_NODENUM PSSH_HOST"]
     ++ flat_map (fun opt => [PyStr "-o"; opt]) options)
    ++ ((if truthy user then [PyStr "-l"; user] else [])
        ++ (if truthy port then [PyStr "-p"; port] else []))
    ++ (extra ++ (if truthy cmdline then [cmdline] else [])).
Proof.
  unfold _build_call_cmd.
  assert (Hopts : forall cmd,
            match options with
            | _ :: _ => foldl (fun cmd opt => cmd ++ [PyStr "-o"; opt]) cmd options
            | [] => cmd
            end = cmd ++ flat_map (fun opt => [PyStr "-o"; opt]) options).
  { intros cmd. destruct options; [now rewrite app_nil_r | apply append_options_fold]. }
  rewrite Hopts.
  assert (Hextra : forall cmd, match extra with _ :: _ => cmd ++ extra | [] => cmd end
                               = cmd ++ extra).
  { intros cmd. destruct extra; [now rewrite app_nil_r | reflexivity]. }
  rewrite Hextra.
  destruct (truthy user), (truthy port), (truthy cmdline);
    rewrite ?app_nil_r, <- ?app_assoc; reflexivity.
Qed.

(** C7: [_build_call_cmd] is a function of its six arguments alone (it reads
    no state). The vector it returns begins with "ssh" and the host; after
    the fixed options and one "-o", option pair per connection option, in
    order, comes the segment of flags the builder adds, which contains "-l"
    followed by the user exactly when a user is given, and "-p" followed by
    the port exactly when a port is given ("given" as the code tests it:
    [if user:], [if port:]); then the extra arguments; and the command line
    is the last element when a command line is given. *)
Theorem build_call_cmd_argument_vector
    (host port user cmdline : pyval) (options extra : list pyval) :
  let cmd := _build_call_cmd host port user cmdline options extra in
  take 2 cmd = [PyStr "ssh"; host] /\
  (exists flags,
     cmd = ([PyStr "ssh"; host;
             PyStr "-o"; PyStr "NumberOfPasswordPrompts=1";
             PyStr "-o"; PyStr "SendEnv=PSSH_NODENUM PSSH_HOST"]
            ++ flat_map (fun opt => [PyStr "-o"; opt]) options)
           ++ flags ++ (extra ++ (if truthy cmdline then [cmdline] else [])) /\
     follows (PyStr "-l") user flags = truthy user /\
     follows (PyStr "-p") port flags = truthy port /\
     length flags = (if truthy user then 2 else 0) + (if truthy port then 2 else 0)) /\
  (truthy user = true -> follows (PyStr "-l") user cmd = true) /\
  (truthy port = true -> follows (PyStr "-p") port cmd = true) /\
  (truthy cmdline = true -> last cmd = Some cmdline).
Proof.
  intros cmd. subst cmd. rewrite build_call_cmd_segments.
  split; [reflexivity |]. split; [| split; [| split]].
  - eexists. split; [reflexivity |].
    destruct (truthy user), (truthy port); (split; [| split; [| reflexivity]]);
      first [ apply follows_here
            | apply (follows_app_r _ _ [_; _]), follows_here
            | apply follows_pair_other; discriminate
            | reflexivity ].
  - intros ->. apply follows_app_r. simpl app at 1. apply follows_here.
  - intros ->. apply follows_app_r.
    destruct (truthy user); [apply (follows_app_r _ _ [_; _]) |]; apply follows_here.
  - intros ->. rewrite !app_assoc. apply last_snoc.
Qed.

Lemma build_call_cmd_argument_vector_witness :
  follows (PyStr "-l") (PyStr "root")
    (_build_call_cmd (PyStr "web1") (PyInt 2222) (PyStr "root") (PyStr "uptime")
       [PyStr "StrictHostKeyChecking=no"] [PyStr "-v"]) = true /\
  last (_build_call_cmd (PyStr "web1") (PyInt 2222) (PyStr "root") (PyStr "uptime")
          [PyStr "StrictHostKeyChecking=no"] [PyStr "-v"]) = Some (PyStr "uptime").
Proof.
  split;
    apply (build_call_cmd_argument_vector (PyStr "web1") (PyInt 2222) (PyStr "root")
             (PyStr "uptime") [PyStr "StrictHostKeyChecking=no"] [PyStr "-v"]);
    reflexivity.
Defined.

(** ** Host normalisation and the operations on bare host names *)

(** C1: [_expand_host_port_user] returns from inside its loop. Whatever
    follows the first element is ignored, and the value returned is the one
    triple of the first element, not a list of triples: for two bare host
    names the callers' [for host, port, user in ...] then iterates over the
    three components of that triple and fails to unpack the host name, where
    the docstring promises one triple per host. *)
Theorem expand_host_port_user_first_only :
  (forall (v : pyval) (rest : list pyval),
     _expand_host_port_user (v :: rest) = _expand_host_port_user [v]) /\
  _expand_host_port_user [PyStr "host1"; PyStr "host2"]
    = Returns (PyTuple [PyStr "host1"; PyNone; PyNone]) /\
  iter_triples (PyTuple [PyStr "host1"; PyNone; PyNone]) = Raises ValueError /\
  expand_spec [PyStr "host1"; PyStr "host2"]
    = Some [(PyStr "host1", PyNone, PyNone); (PyStr "host2", PyNone, PyNone)].
Proof. repeat split; reflexivity. Qed.

(** C2: [call] on two bare host names raises [ValueError] before any task
    exists, whatever the engine would do: no mapping is returned, let alone
    one keyed by the two hosts. [copy] fails to construct its result builder
    ([TypeError]) and [slurp] fails like [call], in its directory step. *)
Theorem operations_return_no_mapping
    (D1 D2 : Z) (py_str : pyval -> string) (engine : Manager.t -> engine_outcome)
    (cmdline src dst : string) (w : World) :
  call engine [PyStr "host1"; PyStr "host2"] (PyStr cmdline) (Options_default D1 D2) w
    = (Raises ValueError, w) /\
  copy py_str engine [PyStr "host1"; PyStr "host2"] (PyTuple [PyStr src]) (PyStr dst)
       (options_with PyNone) w
    = (Raises TypeError, w) /\
  (slurp py_str engine [PyStr "host1"; PyStr "host2"] (PyStr src) (PyStr "logs")
         (options_with PyNone) w0).1
    = Raises ValueError.
Proof. repeat split; reflexivity. Qed.

(** ** Which exceptions the operations raise *)

Lemma raises_within_ret {A : Type} (allowed : exn -> Prop) (a : A) :
  raises_within allowed (ret a).
Proof. intros w e H. discriminate. Qed.

Lemma raises_within_bind {A B : Type} (allowed : exn -> Prop) (m : M A) (k : A -> M B) :
  raises_within allowed m ->
  (forall a, raises_within allowed (k a)) ->
  raises_within allowed (m ≫= k).
Proof.
  intros Hm Hk w e. unfold mbind, M_bind, bind.
  destruct (m w) as [[a | e'] w'] eqn:E.
  - apply Hk.
  - simpl. intros [= ->]. apply (Hm w). now rewrite E.
Qed.

Lemma raises_within_lift {A : Type} (allowed : exn -> Prop) (r : pyres A) :
  pure_within allowed r -> raises_within allowed (lift r).
Proof. intros Hr w e H. now apply Hr. Qed.

Lemma raises_within_emit (allowed : exn -> Prop) (ev : event) :
  raises_within allowed (emit ev).
Proof. intros w e H. discriminate. Qed.

Lemma raises_within_for_each {S : Type} (allowed : exn -> Prop)
    (items : list pyval) (body : pyval -> S -> M S) (s : S) :
  (forall item s, raises_within allowed (body item s)) ->
  raises_within allowed (for_each items body s).
Proof.
  intros Hbody. revert s. induction items as [| item items IH]; intros s; simpl.
  - apply raises_within_ret.
  - apply raises_within_bind; [apply Hbody | exact IH].
Qed.

Lemma raises_within_os_path_exists (allowed : exn -> Prop) (path : pyval) :
  allowed TypeError -> raises_within allowed (os_path_exists path).
Proof. intros Ht w e. destruct path; simpl; intros [= <-]; exact Ht. Qed.

Lemma raises_within_create_dir (allowed : exn -> Prop) (ev : string -> event) (path : pyval) :
  allowed TypeError -> allowed OSError -> raises_within allowed (create_dir ev path).
Proof.
  intros Ht Ho w e. destruct path; simpl; try (intros [= <-]; exact Ht).
  destruct (_ || _); simpl; intros [= <-]. exact Ho.
Qed.

Lemma raises_within_makedirs_if_missing (allowed : exn -> Prop) (d : pyval) :
  allowed TypeError -> allowed OSError -> raises_within allowed (makedirs_if_missing d).
Proof.
  intros Ht Ho. unfold makedirs_if_missing. destruct (truthy d).
  - apply raises_within_bind; [now apply raises_within_os_path_exists |].
    intros [|]; [apply raises_within_ret | now apply raises_within_create_dir].
  - apply raises_within_ret.
Qed.

Lemma raises_within_Task_new (allowed : exn -> Prop)
    (host port user : pyval) (cmd : list pyval) (opts : Options.t) :
  raises_within allowed (Task_new host port user cmd opts).
Proof. intros w e H. discriminate. Qed.

Lemma raises_within_add_task (allowed : exn -> Prop) (manager : Manager.t) (t : Task.t) :
  raises_within allowed (add_task manager t).
Proof. intros w e H. discriminate. Qed.

Lemma py_iter_raises (v : pyval) (e : exn) : py_iter v = Raises e -> e = TypeError.
Proof. destruct v; simpl; congruence. Qed.

Lemma unpack3_raises (item : pyval) (e : exn) :
  unpack3 item = Raises e -> e = TypeError \/ e = ValueError.
Proof.
  unfold unpack3. destruct (py_iter item) as [items | e'] eqn:E.
  - destruct items as [| a [| b [| c [| d items]]]]; intros [= <-]; auto.
  - intros [= <-]. left. now apply (py_iter_raises item).
Qed.

Lemma expand_host_port_user_raises (lst : list pyval) (e : exn) :
  _expand_host_port_user lst = Raises e -> e = TypeError.
Proof.
  destruct lst as [| v lst]; simpl; [discriminate |].
  destruct v as [| s | z | l]; simpl; try congruence.
  destruct l as [| a [| b [| c l]]]; simpl; discriminate.
Qed.

Lemma getattr_raises {A : Type} (field : option A) (e : exn) :
  getattr field = Raises e -> e = AttributeError.
Proof. destruct field; simpl; congruence. Qed.

Lemma build_copy_cmd_raises (py_str : pyval -> string)
    (host port user src dst : pyval) (opts : Options.t) (e : exn) :
  _build_copy_cmd py_str host port user src dst opts = Raises e -> setup_exn e.
Proof.
  unfold _build_copy_cmd, setup_exn, mbind, pyres_bind.
  destruct (getattr (Options.options opts)) eqn:E1;
    [| intros [= <-]; apply getattr_raises in E1; auto].
  destruct (getattr (Options.extra opts)) eqn:E2;
    [| intros [= <-]; apply getattr_raises in E2; auto].
  destruct (py_iter src) eqn:E3; [discriminate |].
  intros [= <-]. apply py_iter_raises in E3. auto.
Qed.

Lemma build_slurp_cmd_raises (py_str : pyval -> string)
    (host port user src dst : pyval) (opts : Options.t) (e : exn) :
  _build_slurp_cmd py_str host port user src dst opts = Raises e -> setup_exn e.
Proof.
  unfold _build_slurp_cmd, setup_exn, mbind, pyres_bind.
  destruct (getattr (Options.options opts)) eqn:E1;
    [| intros [= <-]; apply getattr_raises in E1; auto].
  destruct (getattr (Options.extra opts)) eqn:E2;
    [| intros [= <-]; apply getattr_raises in E2; auto].
  discriminate.
Qed.

(** Closes the side conditions of the lemmas above. *)
Ltac solve_allowed :=
  first [ assumption
        | unfold call_setup_exn, setup_exn; auto; fail
        | intros ? ?; unfold call_setup_exn, setup_exn;
          match goal with
          | H : _expand_host_port_user _ = Raises _ |- _ =>
              apply expand_host_port_user_raises in H
          | H : py_iter _ = Raises _ |- _ => apply py_iter_raises in H
          | H : unpack3 _ = Raises _ |- _ => apply unpack3_raises in H
          | H : getattr _ = Raises _ |- _ => apply getattr_raises in H
          | H : _ = Raises _ |- _ =>
              simpl in H; first [ discriminate H | injection H as <- ]
          end; intuition auto ].

Lemma call_setup_raises (hosts : list pyval) (cmdline : pyval) (opts : Options.t) :
  raises_within call_setup_exn (call_setup hosts cmdline opts).
Proof.
  unfold call_setup, output_dirs, call_tasks.
  repeat first
    [ apply raises_within_bind; [| intros ?]
    | apply raises_within_makedirs_if_missing
    | apply raises_within_lift
    | apply raises_within_for_each; intros ? ?
    | apply raises_within_Task_new
    | apply raises_within_add_task
    | match goal with |- raises_within _ (match ?x with _ => _ end) => destruct x end
    | solve_allowed ].
Qed.

Lemma copy_setup_raises (py_str : pyval -> string)
    (hosts : list pyval) (src dst : pyval) (opts : Options.t) :
  raises_within setup_exn (copy_setup py_str hosts src dst opts).
Proof.
  unfold copy_setup, output_dirs, copy_tasks.
  repeat first
    [ apply raises_within_bind; [| intros ?]
    | apply raises_within_makedirs_if_missing
    | apply raises_within_lift
    | apply raises_within_for_each; intros ? ?
    | apply raises_within_Task_new
    | apply raises_within_add_task
    | match goal with |- raises_within _ (match ?x with _ => _ end) => destruct x end
    | intros ? ?; eapply build_copy_cmd_raises; eassumption
    | solve_allowed ].
Qed.

Lemma slurp_make_local_dirs_raises (py_str : pyval -> string)
    (hosts : list pyval) (dst : pyval) (opts : Options.t) :
  raises_within setup_exn (_slurp_make_local_dirs py_str hosts dst opts).
Proof.
  unfold _slurp_make_local_dirs.
  repeat first
    [ apply raises_within_bind; [| intros ?]
    | apply raises_within_os_path_exists
    | apply raises_within_create_dir
    | apply raises_within_ret
    | apply raises_within_lift
    | apply raises_within_for_each; intros ? ?
    | match goal with |- raises_within _ (match ?x with _ => _ end) => destruct x end
    | match goal with |- raises_within _ (if ?x then _ else _) => destruct x end
    | solve_allowed ].
Qed.

Lemma slurp_setup_raises (py_str : pyval -> string)
    (hosts : list pyval) (src dst : pyval) (opts : Options.t) :
  raises_within setup_exn (slurp_setup py_str hosts src dst opts).
Proof.
  unfold slurp_setup, output_dirs, slurp_tasks.
  repeat first
    [ apply slurp_make_local_dirs_raises
    | apply raises_within_bind; [| intros ?]
    | apply raises_within_makedirs_if_missing
    | apply raises_within_lift
    | apply raises_within_for_each; intros ? ?
    | apply raises_within_Task_new
    | apply raises_within_add_task
    | match goal with |- raises_within _ (match ?x with _ => _ end) => destruct x end
    | intros ? ?; eapply build_slurp_cmd_raises; eassumption
    | solve_allowed ].
Qed.

(** ** The fatal abort *)

Lemma run_or_exit_fatal (engine : Manager.t -> engine_outcome)
    (manager : Manager.t) (w1 w2 : World) :
  Manager_run engine manager w1 = (Raises FatalError, w2) ->
  run_or_exit engine manager w1 = (Raises (SystemExit 1), w2).
Proof. intros H. unfold run_or_exit, try_except. rewrite H. reflexivity. Qed.

Lemma run_or_exit_returns (engine : Manager.t -> engine_outcome)
    (manager : Manager.t) (w1 w2 : World) (m : gmap pyval outcome) :
  Manager_run engine manager w1 = (Returns m, w2) ->
  run_or_exit engine manager w1 = (Returns m, w2).
Proof. intros H. unfold run_or_exit, try_except. now rewrite H. Qed.

Lemma run_or_exit_raises (engine : Manager.t -> engine_outcome) (manager : Manager.t) :
  raises_within (fun e => e = SystemExit 1) (run_or_exit engine manager).
Proof.
  intros w e. unfold run_or_exit, try_except, Manager_run, mbind, M_bind, bind. simpl.
  destruct (engine manager); simpl; [| discriminate]. now intros [= <-].
Qed.

Lemma after_setup {A B : Type} (setup : M A) (k : A -> M B) (w w1 : World) (a : A) :
  setup w = (Returns a, w1) -> (setup ≫= k) w = k a w1.
Proof. intros H. unfold mbind, M_bind, bind. now rewrite H. Qed.

Lemma operation_raises (setup : M Manager.t) (engine : Manager.t -> engine_outcome) :
  raises_within setup_exn setup ->
  raises_within (fun e => setup_exn e \/ e = SystemExit 1)
    (setup ≫= run_or_exit engine).
Proof.
  intros Hsetup. apply raises_within_bind.
  - intros w e H. left. now apply (Hsetup w).
  - intros manager w e H. right. now apply (run_or_exit_raises engine manager w).
Qed.

Lemma call_setup_exn_setup_exn (e : exn) : call_setup_exn e -> setup_exn e.
Proof. unfold call_setup_exn, setup_exn. tauto. Qed.

(** C4: in every invocation of [call] or [slurp] that gets as far as the
    engine run, if the run raises [FatalError] the operation ends in
    [SystemExit(1)] and returns no mapping; if the run returns a mapping the
    operation returns that mapping. [copy] ends with the same statement, and
    none of the three operations ever lets [FatalError] reach the caller. *)
Theorem fatal_abort_exits_with_status_1
    (py_str : pyval -> string) (engine : Manager.t -> engine_outcome)
    (hosts : list pyval) (cmdline src dst : pyval) (opts : Options.t) (w : World) :
  (forall manager w1,
     call_setup hosts cmdline opts w = (Returns manager, w1) ->
     (forall w2, Manager_run engine manager w1 = (Raises FatalError, w2) ->
        call engine hosts cmdline opts w = (Raises (SystemExit 1), w2)) /\
     (forall m w2, Manager_run engine manager w1 = (Returns m, w2) ->
        call engine hosts cmdline opts w = (Returns m, w2))) /\
  (forall manager w1,
     slurp_setup py_str hosts src dst opts w = (Returns manager, w1) ->
     (forall w2, Manager_run engine manager w1 = (Raises FatalError, w2) ->
        slurp py_str engine hosts src dst opts w = (Raises (SystemExit 1), w2)) /\
     (forall m w2, Manager_run engine manager w1 = (Returns m, w2) ->
        slurp py_str engine hosts src dst opts w = (Returns m, w2))) /\
  copy py_str engine hosts src dst opts
    = (copy_setup py_str hosts src dst opts ≫= run_or_exit engine) /\
  (call engine hosts cmdline opts w).1 ≠ Raises FatalError /\
  (copy py_str engine hosts src dst opts w).1 ≠ Raises FatalError /\
  (slurp py_str engine hosts src dst opts w).1 ≠ Raises FatalError.
Proof.
  split; [| split; [| split; [reflexivity |]]].
  - intros manager w1 Hsetup. unfold call. rewrite (after_setup _ _ _ _ _ Hsetup).
    split; [apply run_or_exit_fatal | intros m w2; apply run_or_exit_returns].
  - intros manager w1 Hsetup. unfold slurp. rewrite (after_setup _ _ _ _ _ Hsetup).
    split; [apply run_or_exit_fatal | intros m w2; apply run_or_exit_returns].
  - assert (Hno : forall setup : M Manager.t,
              raises_within setup_exn setup ->
              ((setup ≫= run_or_exit engine) w).1 ≠ Raises FatalError).
    { intros setup Hsetup Hfatal.
      destruct (operation_raises setup engine Hsetup w FatalError Hfatal) as [H | H];
        [unfold setup_exn in H; intuition discriminate | discriminate]. }
    split; [| split].
    + apply Hno. intros w' e H. apply call_setup_exn_setup_exn.
      now apply (call_setup_raises hosts cmdline opts w').
    + apply Hno, copy_setup_raises.
    + apply Hno, slurp_setup_raises.
Qed.

Lemma fatal_abort_exits_with_status_1_witness :
  (call engine_fatal hosts_wrapped (PyStr "uptime") (Options_default 32 60) w0).1
    = Raises (SystemExit 1) /\
  (slurp str_of_string engine_fatal hosts_wrapped (PyStr "/var/log") (PyStr "logs")
         (options_with PyNone) w0).1
    = Raises (SystemExit 1) /\
  (exists m, (call engine_all_ok hosts_wrapped (PyStr "uptime") (Options_default 32 60) w0).1
             = Returns m).
Proof.
  split; [| split].
  - destruct (fatal_abort_exits_with_status_1 str_of_string engine_fatal hosts_wrapped
                (PyStr "uptime") (PyStr "/var/log") (PyStr "logs")
                (Options_default 32 60) w0) as [Hcall _].
    edestruct Hcall as [Hfatal _]; [vm_compute; reflexivity |].
    erewrite Hfatal; [reflexivity | vm_compute; reflexivity].
  - destruct (fatal_abort_exits_with_status_1 str_of_string engine_fatal hosts_wrapped
                (PyStr "uptime") (PyStr "/var/log") (PyStr "logs")
                (options_with PyNone) w0) as (_ & Hslurp & _).
    edestruct Hslurp as [Hfatal _]; [vm_compute; reflexivity |].
    erewrite Hfatal; [reflexivity | vm_compute; reflexivity].
  - destruct (fatal_abort_exits_with_status_1 str_of_string engine_all_ok hosts_wrapped
                (PyStr "uptime") (PyStr "/var/log") (PyStr "logs")
                (Options_default 32 60) w0) as [Hcall _].
    edestruct Hcall as [_ Hret]; [vm_compute; reflexivity |].
    eexists. erewrite Hret; reflexivity.
Defined.

(** The run is reached when the single entry of [hosts] is itself a
    sequence of three triples; the mapping then has one entry per triple. *)
Lemma call_wrapped_hosts_returns_mapping :
  exists m w,
    call engine_all_ok hosts_wrapped (PyStr "uptime") (Options_default 32 60) w0
      = (Returns m, w) /\
    m !! PyStr "web1" = Some (Result (PyInt 0) (PyStr "ok") PyNone) /\
    m !! PyStr "web2" = Some (Result (PyInt 0) (PyStr "ok") PyNone) /\
    m !! PyStr "web3" = Some (Result (PyInt 0) (PyStr "ok") PyNone) /\
    log w = [EvTask (PyStr "web1"); EvAddTask (PyStr "web1");
             EvTask (PyStr "web2"); EvAddTask (PyStr "web2");
             EvTask (PyStr "web3"); EvAddTask (PyStr "web3"); EvRun].
Proof. do 2 eexists. split; [reflexivity |]. repeat split; vm_compute; reflexivity. Qed.

(** On one triple of three-character strings [call] returns a mapping keyed
    by the first characters of host, port and user; the host has no entry. *)
Lemma call_three_chars_keys :
  exists m w,
    call engine_all_ok hosts_three_chars (PyStr "uptime") (Options_default 32 60) w0
      = (Returns m, w) /\
    m !! PyStr "abc" = None /\
    m !! PyStr "a" = Some (Result (PyInt 0) (PyStr "ok") PyNone) /\
    m !! PyStr "2" = Some (Result (PyInt 0) (PyStr "ok") PyNone) /\
    m !! PyStr "u" = Some (Result (PyInt 0) (PyStr "ok") PyNone).
Proof. do 2 eexists. split; [reflexivity |]. repeat split; vm_compute; reflexivity. Qed.

(** ** Directories *)

(** C5: [slurp] with [outdir] configured and absent, on a bare host name.
    The directory step that runs first raises [ValueError] when it unpacks the
    host name, so the statement that would create [outdir] is never reached:
    the operation ends with the directory still missing. *)
Theorem slurp_leaves_outdir_missing
    (py_str : pyval -> string) (engine : Manager.t -> engine_outcome) :
  let r := slurp py_str engine [PyStr "host1"] (PyStr "/var/log") (PyStr "logs")
                 (options_with (PyStr "out")) w0 in
  r.1 = Raises ValueError /\
  bool_decide ("out" ∈ fs w0) = false /\
  bool_decide ("out" ∈ fs r.2) = false /\
  log r.2 = [EvMakedirs "logs"].
Proof. repeat split; vm_compute; reflexivity. Qed.

(** C6: [slurp] over two bare host names creates the destination directory
    and then raises [ValueError] while unpacking the first host name: no
    directory is created for either host. *)
Theorem slurp_creates_no_host_directories
    (py_str : pyval -> string) (engine : Manager.t -> engine_outcome) :
  let r := slurp py_str engine [PyStr "host1"; PyStr "host2"] (PyStr "/var/log")
                 (PyStr "logs") (options_with PyNone) w0 in
  r.1 = Raises ValueError /\
  bool_decide ("logs" ∈ fs r.2) = true /\
  bool_decide ("host1" ∈ fs r.2) = false /\
  bool_decide ("host2" ∈ fs r.2) = false /\
  log r.2 = [EvMakedirs "logs"].
Proof. repeat split; vm_compute; reflexivity. Qed.

(** When the first entry is a triple of three-character strings the loop
    does run, once per component of that one triple: the directories are
    named after the first characters of host, port and user. *)
Lemma slurp_make_local_dirs_three_chars (py_str : pyval -> string) :
  let r := _slurp_make_local_dirs py_str hosts_three_chars (PyStr "logs")
             (options_with PyNone) w0 in
  r.1 = Returns tt /\
  log r.2 = [EvMakedirs "logs"; EvMkdir "a"; EvMkdir "2"; EvMkdir "u"].
Proof. split; vm_compute; reflexivity. Qed.

(** ** The default options *)

(** C9: with the default [Options()], [copy] raises [TypeError] on every
    input: the result builder is constructed without its [dst] argument,
    before any attribute missing from [Options] is read. [slurp] on a bare
    host name raises [ValueError] when unpacking the name, again before the
    missing [localdir] is read. Neither failure is an [AttributeError]. *)
Theorem copy_slurp_default_options_failure
    (D1 D2 : Z) (py_str : pyval -> string) (engine : Manager.t -> engine_outcome)
    (hosts : list pyval) (src dst : pyval) (w : World) :
  copy py_str engine hosts src dst (Options_default D1 D2) w = (Raises TypeError, w) /\
  (slurp py_str engine [PyStr "host1"] src (PyStr "logs") (Options_default D1 D2) w0).1
    = Raises ValueError /\
  log (slurp py_str engine [PyStr "host1"] src (PyStr "logs") (Options_default D1 D2) w0).2
    = [EvMakedirs "logs"].
Proof. repeat split; reflexivity. Qed.

(** What does hold of the default options: the two [scp] command builders
    raise [AttributeError] on every input, and the loop body of the
    directory step of [slurp] raises it as soon as an item unpacks. *)
Lemma build_copy_cmd_default_options
    (D1 D2 : Z) (py_str : pyval -> string) (host port user src dst : pyval) :
  _build_copy_cmd py_str host port user src dst (Options_default D1 D2)
    = Raises AttributeError /\
  _build_slurp_cmd py_str host port user src dst (Options_default D1 D2)
    = Raises AttributeError.
Proof. split; reflexivity. Qed.

Lemma slurp_default_options_three_chars
    (D1 D2 : Z) (py_str : pyval -> string) (engine : Manager.t -> engine_outcome) :
  (slurp py_str engine [PyStr "abc"] (PyStr "/var/log") (PyStr "logs")
         (Options_default D1 D2) w0).1 = Raises AttributeError.
Proof. vm_compute. reflexivity. Qed.

(** [call] reads only attributes that [Options] defines: it never raises
    [AttributeError]. *)
Lemma call_never_attribute_error
    (engine : Manager.t -> engine_outcome)
    (hosts : list pyval) (cmdline : pyval) (opts : Options.t) (w : World) :
  (call engine hosts cmdline opts w).1 ≠ Raises AttributeError.
Proof.
  intros H.
  assert (Hw : raises_within (fun e => call_setup_exn e \/ e = SystemExit 1)
                 (call engine hosts cmdline opts)).
  { apply raises_within_bind.
    - intros w' e He. left. now apply (call_setup_raises hosts cmdline opts w').
    - intros manager w' e He. right. now apply (run_or_exit_raises engine manager w'). }
  destruct (Hw w AttributeError H) as [Hs | Hs];
    [unfold call_setup_exn in Hs; intuition discriminate | discriminate].
Qed.

(** ** Directories come before tasks *)

Lemma extends_by_refl (w : World) : extends_by w w [].
Proof. unfold extends_by. now rewrite app_nil_r. Qed.

Lemma extends_by_trans (w1 w2 w3 : World) (evs1 evs2 : list event) :
  extends_by w1 w2 evs1 -> extends_by w2 w3 evs2 -> extends_by w1 w3 (evs1 ++ evs2).
Proof.
  intros (Hfs1 & Hd1 & Hl1) (Hfs2 & Hd2 & Hl2). split; [| split].
  - now transitivity (fs w2).
  - now rewrite Hd2.
  - now rewrite Hl2, Hl1, app_assoc.
Qed.

Lemma emits_ret {A : Type} (P : event -> bool) (a : A) : emits P (ret a).
Proof. intros w. exists []. split; [apply extends_by_refl | constructor]. Qed.

Lemma emits_raise {A : Type} (P : event -> bool) (e : exn) : emits P (@raise A e).
Proof. intros w. exists []. split; [apply extends_by_refl | constructor]. Qed.

Lemma emits_lift {A : Type} (P : event -> bool) (r : pyres A) : emits P (lift r).
Proof. intros w. exists []. split; [apply extends_by_refl | constructor]. Qed.

Lemma emits_emit (P : event -> bool) (ev : event) : P ev = true -> emits P (emit ev).
Proof.
  intros HP w. exists [ev]. split; [| now constructor].
  unfold emit, extends_by. simpl. auto.
Qed.

Lemma emits_bind {A B : Type} (P : event -> bool) (m : M A) (k : A -> M B) :
  emits P m -> (forall a, emits P (k a)) -> emits P (m ≫= k).
Proof.
  intros Hm Hk w. unfold mbind, M_bind, bind.
  destruct (Hm w) as (evs1 & Hext1 & HP1).
  destruct (m w) as [[a | e] w1]; simpl in *.
  - destruct (Hk a w1) as (evs2 & Hext2 & HP2).
    exists (evs1 ++ evs2). split; [now apply (extends_by_trans w w1) | now apply Forall_app].
  - now exists evs1.
Qed.

Lemma emits_for_each {S : Type} (P : event -> bool)
    (items : list pyval) (body : pyval -> S -> M S) (s : S) :
  (forall item s, emits P (body item s)) -> emits P (for_each items body s).
Proof.
  intros Hbody. revert s. induction items as [| item items IH]; intros s; simpl.
  - apply emits_ret.
  - apply emits_bind; [apply Hbody | exact IH].
Qed.

Lemma emits_os_path_exists (P : event -> bool) (path : pyval) : emits P (os_path_exists path).
Proof.
  intros w. exists []. split; [| constructor].
  destruct path; simpl; apply extends_by_refl.
Qed.

Lemma emits_create_dir (P : event -> bool) (ev : string -> event) (path : pyval) :
  (forall p, P (ev p) = true) -> emits P (create_dir ev path).
Proof.
  intros HP w. destruct path as [| p | |]; simpl;
    try (exists []; split; [apply extends_by_refl | constructor]).
  destruct (_ || _); simpl.
  - exists []. split; [apply extends_by_refl | constructor].
  - exists [ev p]. split; [| now constructor].
    unfold extends_by. simpl. split; [apply union_subseteq_r | auto].
Qed.

Lemma emits_makedirs_if_missing (P : event -> bool) (d : pyval) :
  (forall p, P (EvMakedirs p) = true) -> emits P (makedirs_if_missing d).
Proof.
  intros HP. unfold makedirs_if_missing. destruct (truthy d); [| apply emits_ret].
  apply emits_bind; [apply emits_os_path_exists |].
  intros [|]; [apply emits_ret | now apply emits_create_dir].
Qed.

Lemma emits_try_except {A : Type} (P : event -> bool) (body handler : M A) (e : exn) :
  emits P body -> emits P handler -> emits P (try_except body e handler).
Proof.
  intros Hb Hh w. unfold try_except.
  destruct (Hb w) as (evs1 & Hext1 & HP1).
  destruct (body w) as [[a | e'] w1]; simpl in *; [now exists evs1 |].
  destruct (decide (e' = e)); [| now exists evs1].
  destruct (Hh w1) as (evs2 & Hext2 & HP2).
  exists (evs1 ++ evs2). split; [now apply (extends_by_trans w w1) | now apply Forall_app].
Qed.

Lemma emits_run_or_exit (P : event -> bool) (engine : Manager.t -> engine_outcome)
    (manager : Manager.t) :
  P EvRun = true -> emits P (run_or_exit engine manager).
Proof.
  intros HP. unfold run_or_exit, Manager_run, sys_exit.
  apply emits_try_except; [| apply emits_raise].
  apply emits_bind; [now apply emits_emit |].
  intros _. destruct (engine manager); [apply emits_raise | apply emits_ret].
Qed.

(** Breaks a statement into its steps and closes each with the lemmas above. *)
Ltac solve_emits :=
  repeat first
    [ apply emits_ret
    | apply emits_raise
    | apply emits_lift
    | apply emits_emit; reflexivity
    | apply emits_os_path_exists
    | apply emits_create_dir; reflexivity
    | apply emits_makedirs_if_missing; reflexivity
    | apply emits_run_or_exit; reflexivity
    | apply emits_for_each; intros ? ?
    | apply emits_bind; [| intros ?]
    | match goal with |- emits _ (match ?x with _ => _ end) => destruct x end ].

Lemma dirs_then_tasks {A B : Type} (m : M A) (k : A -> M B) :
  emits (fun ev => negb (task_event ev)) m ->
  (forall a, emits task_event (k a)) ->
  dirs_before_tasks (m ≫= k).
Proof.
  intros Hm Hk w. unfold mbind, M_bind, bind.
  destruct (Hm w) as (dirs & Hext1 & HP1).
  assert (Hdirs : Forall (fun ev => task_event ev = false) dirs).
  { eapply Forall_impl; [exact HP1 |]. intros ev. simpl. now destruct (task_event ev). }
  destruct (m w) as [[a | e] w1]; simpl in *.
  - destruct (Hk a w1) as (tasks & Hext2 & HP2).
    exists dirs, tasks. split; [now apply (extends_by_trans w w1) | auto].
  - exists dirs, []. rewrite app_nil_r. auto.
Qed.

Lemma bind_assoc_at {A B C : Type} (m : M A) (k : A -> M B) (k' : B -> M C) (w : World) :
  ((m ≫= k) ≫= k') w = (m ≫= (fun a => k a ≫= k')) w.
Proof. unfold mbind, M_bind, bind. now destruct (m w) as [[a | e] w1]. Qed.

Lemma dirs_before_tasks_ext {A : Type} (m m' : M A) :
  (forall w, m w = m' w) -> dirs_before_tasks m' -> dirs_before_tasks m.
Proof. intros Heq H w. rewrite Heq. apply H. Qed.

Lemma emits_output_dirs (P : event -> bool) (opts : Options.t) :
  (forall p, P (EvMakedirs p) = true) -> emits P (output_dirs opts).
Proof.
  intros HP. unfold output_dirs.
  apply emits_bind; [| intros _]; now apply emits_makedirs_if_missing.
Qed.

Lemma emits_slurp_make_local_dirs (py_str : pyval -> string)
    (hosts : list pyval) (dst : pyval) (opts : Options.t) :
  emits (fun ev => negb (task_event ev)) (_slurp_make_local_dirs py_str hosts dst opts).
Proof.
  unfold _slurp_make_local_dirs. solve_emits.
Qed.

Lemma emits_call_tasks (engine : Manager.t -> engine_outcome)
    (hosts : list pyval) (cmdline : pyval) (opts : Options.t) :
  emits task_event (call_tasks hosts cmdline opts ≫= run_or_exit engine).
Proof. unfold call_tasks, Task_new, add_task. solve_emits. Qed.

Lemma emits_copy_tasks (py_str : pyval -> string) (engine : Manager.t -> engine_outcome)
    (hosts : list pyval) (src dst : pyval) (opts : Options.t) :
  emits task_event (copy_tasks py_str hosts src dst opts ≫= run_or_exit engine).
Proof. unfold copy_tasks, Task_new, add_task. solve_emits. Qed.

Lemma emits_slurp_tasks (py_str : pyval -> string) (engine : Manager.t -> engine_outcome)
    (hosts : list pyval) (src dst : pyval) (opts : Options.t) :
  emits task_event (slurp_tasks py_str hosts src dst opts ≫= run_or_exit engine).
Proof. unfold slurp_tasks, Task_new, add_task. solve_emits. Qed.

(** In every invocation of the three operations, whether it returns or
    raises, all directory creations precede the construction of the first
    task, its submission and the engine run. *)
Lemma call_dirs_before_tasks (engine : Manager.t -> engine_outcome)
    (hosts : list pyval) (cmdline : pyval) (opts : Options.t) :
  dirs_before_tasks (call engine hosts cmdline opts).
Proof.
  apply (dirs_before_tasks_ext _
           (output_dirs opts ≫= fun _ => call_tasks hosts cmdline opts ≫= run_or_exit engine)).
  - intros w. unfold call, call_setup. apply bind_assoc_at.
  - apply dirs_then_tasks; [now apply emits_output_dirs | intros _; apply emits_call_tasks].
Qed.

Lemma copy_dirs_before_tasks (py_str : pyval -> string) (engine : Manager.t -> engine_outcome)
    (hosts : list pyval) (src dst : pyval) (opts : Options.t) :
  dirs_before_tasks (copy py_str engine hosts src dst opts).
Proof.
  apply (dirs_before_tasks_ext _
           (output_dirs opts ≫= fun _ => copy_tasks py_str hosts src dst opts
                                          ≫= run_or_exit engine)).
  - intros w. unfold copy, copy_setup. apply bind_assoc_at.
  - apply dirs_then_tasks; [now apply emits_output_dirs | intros _; apply emits_copy_tasks].
Qed.

Lemma slurp_dirs_before_tasks (py_str : pyval -> string) (engine : Manager.t -> engine_outcome)
    (hosts : list pyval) (src dst : pyval) (opts : Options.t) :
  dirs_before_tasks (slurp py_str engine hosts src dst opts).
Proof.
  apply (dirs_before_tasks_ext _
           ((_slurp_make_local_dirs py_str hosts dst opts ;; output_dirs opts)
            ≫= fun _ => slurp_tasks py_str hosts src dst opts ≫= run_or_exit engine)).
  - intros w. unfold slurp, slurp_setup. rewrite !bind_assoc_at.
    unfold mbind, M_bind, bind.
    destruct (_slurp_make_local_dirs py_str hosts dst opts w) as [[[] | e] w1]; [| reflexivity].
    now destruct (output_dirs opts w1) as [[[] | e] w2].
  - apply dirs_then_tasks; [| intros _; apply emits_slurp_tasks].
    apply emits_bind; [apply emits_slurp_make_local_dirs | intros _].
    now apply emits_output_dirs.
Qed.

(** ** [call] and [copy] create the output directories first *)



Lemma makedirs_if_missing_present (p : string) (w : World) :
  p ∈ fs w -> makedirs_if_missing (PyStr p) w = (Returns tt, w).
Proof.
  intros Hfs. unfold makedirs_if_missing. destruct (truthy (PyStr p)); [| reflexivity].
  unfold mbind, M_bind, bind, os_path_exists.
  now rewrite (bool_decide_eq_true_2 _ Hfs).
Qed.

Lemma makedirs_if_missing_unset (d : pyval) (w : World) :
  truthy d = false -> makedirs_if_missing d w = (Returns tt, w).
Proof. intros Hd. unfold makedirs_if_missing. now rewrite Hd. Qed.



(** Directories that exist, or are not configured, are left alone: [call]
    then appends task events only. *)
Lemma call_leaves_existing_directories (engine : Manager.t -> engine_outcome)
    (hosts : list pyval) (cmdline : pyval) (opts : Options.t) (w : World) :
  (truthy (Options.outdir opts) = false \/
   exists out, Options.outdir opts = PyStr out /\ out ∈ fs w) ->
  (truthy (Options.errdir opts) = false \/
   exists err, Options.errdir opts = PyStr err /\ err ∈ fs w) ->
  exists tasks,
    log (call engine hosts cmdline opts w).2 = log w ++ tasks /\
    Forall (fun ev => task_event ev = true) tasks.
Proof.
  intros Ho He.
  assert (Hdirs : output_dirs opts w = (Returns tt, w)).
  { unfold output_dirs.
    assert (H1 : makedirs_if_missing (Options.outdir opts) w = (Returns tt, w)).
    { destruct Ho as [Hf | (out & -> & Hin)];
        [now apply makedirs_if_missing_unset | now apply makedirs_if_missing_present]. }
    rewrite (after_setup _ _ _ _ _ H1).
    destruct He as [Hf | (err & -> & Hin)];
      [now apply makedirs_if_missing_unset | now apply makedirs_if_missing_present]. }
  unfold call, call_setup. rewrite bind_assoc_at, (after_setup _ _ _ _ _ Hdirs).
  destruct (emits_call_tasks engine hosts cmdline opts w) as (tasks & (_ & _ & Hlog) & Htasks).
  now exists tasks.
Qed.


(** * Further properties of the module *)

(** ** The result builders: keys, distinct hosts, order *)

Lemma result_is_fold (b : Builder.t) (manager : Manager.t) :
  result b manager = foldl (store manager) ∅ (Builder.finished_tasks b).
Proof.
  unfold result. destruct (Builder.class b);
    now rewrite ?copy_result_is_call_result, ?slurp_result_is_call_result, call_result_fold.
Qed.

Lemma later_hosts_differ (fin1 fin2 : list Task.t) (t : Task.t) :
  NoDup (map Task.host (fin1 ++ t :: fin2)) ->
  Forall (fun t' => Task.host t' ≠ Task.host t) fin2.
Proof.
  rewrite map_app. simpl. intros Hnd.
  apply NoDup_app in Hnd as (_ & _ & Hnd). apply NoDup_cons in Hnd as [Hnotin _].
  apply Forall_forall. intros t' Hin Heq. apply Hnotin. rewrite <- Heq.
  apply list_elem_of_fmap. now exists t'.
Qed.

Lemma fold_store_lookup_distinct (manager : Manager.t) (fin : list Task.t) (t : Task.t) :
  NoDup (map Task.host fin) -> t ∈ fin ->
  foldl (store manager) ∅ fin !! Task.host t = Some (entry manager t).
Proof.
  intros Hnd Hin. apply list_elem_of_split in Hin as (fin1 & fin2 & ->).
  apply fold_store_lookup_last. now apply (later_hosts_differ fin1).
Qed.

(** The keys of the mapping a builder returns are exactly the hosts of the
    tasks it was told have finished. *)
Theorem result_keys_are_finished_hosts (b : Builder.t) (manager : Manager.t) :
  dom (result b manager) = list_to_set (map Task.host (Builder.finished_tasks b)).
Proof. rewrite result_is_fold. apply fold_store_dom. Qed.

(** When the finished tasks have pairwise distinct hosts, the mapping holds
    one entry per task, and each task finds its own entry under its host. *)
Theorem result_distinct_hosts
    (fin : list Task.t) (manager : Manager.t) (cls : builder_class) :
  NoDup (map Task.host fin) ->
  (forall t, t ∈ fin ->
     result (Builder.mk cls fin) manager !! Task.host t = Some (entry manager t)) /\
  size (result (Builder.mk cls fin) manager) = length fin.
Proof.
  intros Hnd. rewrite result_is_fold. simpl. split.
  - intros t Hin. now apply fold_store_lookup_distinct.
  - rewrite <- size_dom, fold_store_dom, size_list_to_set by exact Hnd.
    apply length_map.
Qed.

Lemma result_distinct_hosts_witness :
  result (Builder.mk CallOutputBuilder [task_failed; task_other]) (manager_with PyNone PyNone)
    !! PyStr "host1" = Some (Error "Timed out, Killed") /\
  size (result (Builder.mk CallOutputBuilder [task_failed; task_other])
               (manager_with PyNone PyNone)) = 2.
Proof.
  assert (Hnd : NoDup (map Task.host [task_failed; task_other])).
  { apply NoDup_cons. split; [| apply NoDup_singleton].
    rewrite list_elem_of_singleton. discriminate. }
  destruct (result_distinct_hosts [task_failed; task_other] (manager_with PyNone PyNone)
              CallOutputBuilder Hnd) as [Hlookup Hsize].
  split; [| exact Hsize].
  apply (Hlookup task_failed). apply list_elem_of_here.
Defined.

(** With pairwise distinct hosts the order in which the tasks finished does
    not matter: any reordering of the finished tasks gives the same mapping. *)
Theorem result_order_irrelevant
    (fin fin' : list Task.t) (manager : Manager.t) (cls : builder_class) :
  NoDup (map Task.host fin) -> fin ≡ₚ fin' ->
  result (Builder.mk cls fin) manager = result (Builder.mk cls fin') manager.
Proof.
  intros Hnd Hperm. rewrite !result_is_fold. simpl.
  assert (Hnd' : NoDup (map Task.host fin')).
  { assert (Hmap : map Task.host fin ≡ₚ map Task.host fin')
      by now apply Permutation_map.
    now rewrite <- Hmap. }
  apply map_eq. intros h.
  destruct (decide (h ∈ map Task.host fin)) as [Hin | Hnotin].
  - apply list_elem_of_fmap in Hin as (t & -> & Hin).
    rewrite (fold_store_lookup_distinct manager fin t Hnd Hin).
    symmetry. apply fold_store_lookup_distinct; [exact Hnd' |]. now rewrite <- Hperm.
  - rewrite !fold_store_lookup_none; [reflexivity | |].
    + apply Forall_forall. intros t Hin Heq. apply Hnotin. rewrite <- Heq.
      apply list_elem_of_fmap. exists t. split; [reflexivity |]. now rewrite Hperm.
    + apply Forall_forall. intros t Hin Heq. apply Hnotin. rewrite <- Heq.
      apply list_elem_of_fmap. now exists t.
Qed.

Lemma result_order_irrelevant_witness :
  result (Builder.mk SlurpOutputBuilder [task_failed; task_other]) (manager_with PyNone PyNone)
  = result (Builder.mk SlurpOutputBuilder [task_other; task_failed]) (manager_with PyNone PyNone).
Proof.
  apply result_order_irrelevant.
  - apply NoDup_cons. split; [| apply NoDup_singleton].
    rewrite list_elem_of_singleton. discriminate.
  - apply perm_swap.
Defined.

(** The completion hook keeps the tasks in the order of its calls and pays
    no attention to the count it is given; the class of the builder, hence
    the [result] it computes, is unchanged. *)
Theorem finished_accumulates (b : Builder.t) (calls : list (Task.t * nat)) :
  let b' := foldl (fun b '(task, n) => finished b task n) b calls in
  Builder.finished_tasks b' = Builder.finished_tasks b ++ map fst calls /\
  Builder.class b' = Builder.class b.
Proof.
  revert b. induction calls as [| [task n] calls IH]; intros b; simpl.
  - now rewrite app_nil_r.
  - destruct (IH (finished b task n)) as [Htasks Hclass].
    simpl in *. rewrite Htasks, Hclass. simpl. now rewrite <- app_assoc.
Qed.

(** ** The command builders: where the elements come from *)

Lemma elem_of_option_pairs (options : list pyval) (x : pyval) :
  x ∈ flat_map (fun opt => [PyStr "-o"; opt]) options -> x = PyStr "-o" \/ x ∈ options.
Proof.
  induction options as [| opt options IH]; simpl; [now rewrite elem_of_nil |].
  rewrite !elem_of_cons. intros [-> | [-> | H]]; auto.
  destruct (IH H); auto.
Qed.

(** Every element of the vector of [_build_call_cmd] is one of the six
    literals of the builder, the host, a connection option, an extra
    argument, or a user, port or command line that is given. In particular
    the builder itself never adds [None] or an empty string. *)
Theorem build_call_cmd_elements
    (host port user cmdline : pyval) (options extra : list pyval) (x : pyval) :
  x ∈ _build_call_cmd host port user cmdline options extra ->
  x ∈ [PyStr "ssh"; PyStr "-o"; PyStr "NumberOfPasswordPrompts=1";
       PyStr "SendEnv=PSSH_NODENUM PSSH_HOST"; PyStr "-l"; PyStr "-p"] \/
  x = host \/ x ∈ options \/ x ∈ extra \/
  (x = user /\ truthy user = true) \/
  (x = port /\ truthy port = true) \/
  (x = cmdline /\ truthy cmdline = true).
Proof.
  rewrite build_call_cmd_segments. intros H.
  apply elem_of_app in H as [H | H]; [apply elem_of_app in H as [H | H] |
    apply elem_of_app in H as [H | H]; apply elem_of_app in H as [H | H]].
  - rewrite !elem_of_cons, elem_of_nil in H. rewrite !elem_of_cons. intuition auto.
  - apply elem_of_option_pairs in H as [-> | H]; [| auto].
    left. rewrite !elem_of_cons. auto.
  - destruct (truthy user) eqn:Hu; [| now apply elem_of_nil in H].
    rewrite !elem_of_cons, elem_of_nil in H. destruct H as [-> | [-> | []]]; [| auto 10].
    left. rewrite !elem_of_cons. auto 10.
  - destruct (truthy port) eqn:Hp; [| now apply elem_of_nil in H].
    rewrite !elem_of_cons, elem_of_nil in H. destruct H as [-> | [-> | []]]; [| auto 10].
    left. rewrite !elem_of_cons. auto 10.
  - auto.
  - destruct (truthy cmdline) eqn:Hc; [| now apply elem_of_nil in H].
    apply list_elem_of_singleton in H as ->. auto 10.
Qed.

Lemma build_call_cmd_elements_witness :
  PyInt 2222 ∈ [PyStr "ssh"; PyStr "-o"; PyStr "NumberOfPasswordPrompts=1";
                PyStr "SendEnv=PSSH_NODENUM PSSH_HOST"; PyStr "-l"; PyStr "-p"] \/
  PyInt 2222 = PyStr "web1" \/ PyInt 2222 ∈ [PyStr "BatchMode=yes"] \/
  PyInt 2222 ∈ [PyStr "-v"] \/
  (PyInt 2222 = PyNone /\ truthy PyNone = true) \/
  (PyInt 2222 = PyInt 2222 /\ truthy (PyInt 2222) = true) \/
  (PyInt 2222 = PyStr "uptime" /\ truthy (PyStr "uptime") = true).
Proof.
  apply (build_call_cmd_elements (PyStr "web1") (PyInt 2222) PyNone (PyStr "uptime")
           [PyStr "BatchMode=yes"] [PyStr "-v"] (PyInt 2222)).
  simpl. do 9 apply list_elem_of_further. apply list_elem_of_here.
Defined.

Lemma option_pairs_lookup (options : list pyval) (i : nat) (opt : pyval) :
  options !! i = Some opt ->
  flat_map (fun opt => [PyStr "-o"; opt]) options !! (2 * i) = Some (PyStr "-o") /\
  flat_map (fun opt => [PyStr "-o"; opt]) options !! (S (2 * i)) = Some opt.
Proof.
  revert i. induction options as [| o options IH]; intros i Hi; [discriminate |].
  destruct i as [| i]; simpl in *.
  - injection Hi as ->. auto.
  - replace (i + S (i + 0)) with (S (2 * i)) by lia.
    simpl. now apply IH.
Qed.

Lemma option_pairs_length (options : list pyval) :
  length (flat_map (fun opt => [PyStr "-o"; opt]) options) = 2 * length options.
Proof.
  induction options as [| o options IH]; simpl; [reflexivity |].
  rewrite IH. lia.
Qed.

(** The connection options keep their order and their places: the option
    with index [i] sits at index [7 + 2i] of the vector, after its "-o" at
    index [6 + 2i], whatever the other arguments are. *)
Theorem build_call_cmd_option_positions
    (host port user cmdline : pyval) (options extra : list pyval) (i : nat) (opt : pyval) :
  options !! i = Some opt ->
  _build_call_cmd host port user cmdline options extra !! (6 + 2 * i) = Some (PyStr "-o") /\
  _build_call_cmd host port user cmdline options extra !! (7 + 2 * i) = Some opt.
Proof.
  intros Hi. rewrite build_call_cmd_segments.
  assert (Hlt : i < length options) by (apply lookup_lt_is_Some; eauto).
  destruct (option_pairs_lookup options i opt Hi) as [Ho Hopt].
  split; (rewrite lookup_app_l;
          [assumption | rewrite length_app, option_pairs_length; simpl; lia]).
Qed.

Lemma build_call_cmd_option_positions_witness :
  _build_call_cmd (PyStr "web1") PyNone (PyStr "root") (PyStr "uptime")
    [PyStr "BatchMode=yes"; PyStr "ConnectTimeout=5"] [] !! 9
  = Some (PyStr "ConnectTimeout=5").
Proof.
  apply (build_call_cmd_option_positions (PyStr "web1") PyNone (PyStr "root") (PyStr "uptime")
           [PyStr "BatchMode=yes"; PyStr "ConnectTimeout=5"] [] 1 (PyStr "ConnectTimeout=5")).
  reflexivity.
Defined.

(** ** The [scp] command builders *)

Lemma build_copy_cmd_segments (py_str : pyval -> string)
    (host port user src dst : pyval) (opts : Options.t)
    (options extra items : list pyval) :
  Options.options opts = Some options -> Options.extra opts = Some extra ->
  py_iter src = Returns items ->
  _build_copy_cmd py_str host port user src dst opts
  = Returns (PyStr "scp" :: PyStr "-qC"
             :: (scp_flags port options (Options.recursive opts) ++ extra)
             ++ items ++ [remote_spec py_str user host dst]).
Proof.
  intros Ho He Hs. unfold _build_copy_cmd, remote_spec, scp_flags, mbind, pyres_bind.
  rewrite Ho, He, Hs. simpl. rewrite append_options_fold.
  destruct (truthy port), (Options.recursive opts), (truthy user);
    simpl; rewrite <- ?app_assoc; simpl; rewrite <- ?app_assoc; reflexivity.
Qed.

Lemma build_slurp_cmd_segments (py_str : pyval -> string)
    (host port user src dst : pyval) (opts : Options.t) (options extra : list pyval) :
  Options.options opts = Some options -> Options.extra opts = Some extra ->
  _build_slurp_cmd py_str host port user src dst opts
  = Returns (PyStr "scp" :: PyStr "-qC"
             :: (scp_flags port options (Options.recursive opts) ++ extra)
             ++ [remote_spec py_str user host src; dst]).
Proof.
  intros Ho He. unfold _build_slurp_cmd, remote_spec, scp_flags, mbind, pyres_bind.
  rewrite Ho, He. simpl. rewrite append_options_fold.
  destruct (truthy port), (Options.recursive opts), (truthy user);
    simpl; rewrite <- ?app_assoc; simpl; rewrite <- ?app_assoc; reflexivity.
Qed.

(** [_build_copy_cmd] fails with [AttributeError] exactly when the options
    object lacks [options] or [extra], with [TypeError] exactly when both are
    there and [src] cannot be iterated, and with nothing else. When it
    returns, the vector starts with "scp", "-qC" and ends with the items of
    [src], in order, followed by the remote target. *)
Theorem build_copy_cmd_outcome (py_str : pyval -> string)
    (host port user src dst : pyval) (opts : Options.t) :
  let r := _build_copy_cmd py_str host port user src dst opts in
  (r = Raises AttributeError <->
     Options.options opts = None \/ Options.extra opts = None) /\
  (r = Raises TypeError <->
     Options.options opts ≠ None /\ Options.extra opts ≠ None /\
     py_iter src = Raises TypeError) /\
  (forall e, r = Raises e -> e = AttributeError \/ e = TypeError) /\
  (forall cmd, r = Returns cmd ->
     exists pre items,
       py_iter src = Returns items /\
       cmd = PyStr "scp" :: PyStr "-qC" :: pre ++ items
             ++ [remote_spec py_str user host dst]).
Proof.
  intros r. subst r.
  destruct (Options.options opts) as [options |] eqn:Ho;
    [destruct (Options.extra opts) as [extra |] eqn:He;
       [destruct (py_iter src) as [items | e'] eqn:Hs |] |].
  - rewrite (build_copy_cmd_segments _ _ _ _ _ _ _ _ _ _ Ho He Hs).
    repeat split; try discriminate; try (intros [[=] | [=]]); try (intros (_ & _ & [=])).
    intros cmd [= <-]. eauto.
  - assert (He' : e' = TypeError) by now apply (py_iter_raises src).
    subst e'.
    assert (Hr : _build_copy_cmd py_str host port user src dst opts = Raises TypeError).
    { unfold _build_copy_cmd, mbind, pyres_bind. now rewrite Ho, He, Hs. }
    rewrite Hr. repeat split; try discriminate; auto;
      try (intros [[=] | [=]]); try (intros e [= <-]; auto).
  - assert (Hr : _build_copy_cmd py_str host port user src dst opts = Raises AttributeError).
    { unfold _build_copy_cmd, mbind, pyres_bind. now rewrite Ho, He. }
    rewrite Hr. repeat split; try discriminate; auto;
      try (intros (_ & Hne & _); now destruct Hne); try (intros e [= <-]; auto).
  - assert (Hr : _build_copy_cmd py_str host port user src dst opts = Raises AttributeError).
    { unfold _build_copy_cmd, mbind, pyres_bind. now rewrite Ho. }
    rewrite Hr. repeat split; try discriminate; auto;
      try (intros (Hne & _); now destruct Hne); try (intros e [= <-]; auto).
Qed.

(** A [src] given as one path string is taken apart: [cmd.extend(src)] adds
    one argument per character of the path, so a path of [n] characters
    contributes [n] one-character arguments before the remote target. *)
Theorem build_copy_cmd_string_source (py_str : pyval -> string)
    (host port user dst : pyval) (path : string) (opts : Options.t)
    (options extra : list pyval) :
  Options.options opts = Some options -> Options.extra opts = Some extra ->
  exists pre,
    _build_copy_cmd py_str host port user (PyStr path) dst opts
    = Returns (pre ++ chars path ++ [remote_spec py_str user host dst]) /\
    length (chars path) = String.length path /\
    Forall (fun x => exists c, x = PyStr (String c EmptyString)) (chars path).
Proof.
  intros Ho He.
  exists (PyStr "scp" :: PyStr "-qC" :: scp_flags port options (Options.recursive opts) ++ extra).
  split; [| split].
  - now rewrite (build_copy_cmd_segments py_str host port user (PyStr path) dst opts
                   options extra (chars path) Ho He eq_refl).
  - induction path as [| c path IH]; simpl; [reflexivity | now rewrite IH].
  - induction path as [| c path IH]; simpl; constructor; eauto.
Qed.

Lemma build_copy_cmd_string_source_witness :
  exists pre,
    _build_copy_cmd str_of_string (PyStr "web1") PyNone PyNone (PyStr "a.txt") (PyStr "/tmp")
      (options_with PyNone)
    = Returns (pre ++ [PyStr "a"; PyStr "."; PyStr "t"; PyStr "x"; PyStr "t"]
               ++ [PyStr "web1:/tmp"]).
Proof.
  destruct (build_copy_cmd_string_source str_of_string (PyStr "web1") PyNone PyNone
              (PyStr "/tmp") "a.txt" (options_with PyNone) [] [] eq_refl eq_refl)
    as (pre & Hcmd & _).
  exists pre. exact Hcmd.
Defined.

(** [_build_slurp_cmd] fails only with [AttributeError], exactly when the
    options object lacks [options] or [extra]. When it returns, the last two
    elements of the vector are the remote source and the local destination. *)
Theorem build_slurp_cmd_outcome (py_str : pyval -> string)
    (host port user src dst : pyval) (opts : Options.t) :
  let r := _build_slurp_cmd py_str host port user src dst opts in
  (r = Raises AttributeError <->
     Options.options opts = None \/ Options.extra opts = None) /\
  (forall e, r = Raises e -> e = AttributeError) /\
  (forall cmd, r = Returns cmd ->
     exists pre,
       cmd = PyStr "scp" :: PyStr "-qC" :: pre ++ [remote_spec py_str user host src; dst]).
Proof.
  intros r. subst r.
  destruct (Options.options opts) as [options |] eqn:Ho;
    [destruct (Options.extra opts) as [extra |] eqn:He |].
  - rewrite (build_slurp_cmd_segments _ _ _ _ _ _ _ _ _ Ho He).
    repeat split; try discriminate; try (intros [[=] | [=]]).
    intros cmd [= <-]. eauto.
  - assert (Hr : _build_slurp_cmd py_str host port user src dst opts = Raises AttributeError).
    { unfold _build_slurp_cmd, mbind, pyres_bind. now rewrite Ho, He. }
    rewrite Hr. repeat split; try discriminate; auto; intros e [= <-]; auto.
  - assert (Hr : _build_slurp_cmd py_str host port user src dst opts = Raises AttributeError).
    { unfold _build_slurp_cmd, mbind, pyres_bind. now rewrite Ho. }
    rewrite Hr. repeat split; try discriminate; auto; intros e [= <-]; auto.
Qed.

(** ** Host normalisation: what the first entry becomes *)

Lemma expand_host_entry (v : pyval) (rest : list pyval) (host port user : pyval) :
  host_triple_spec v = Some (host, port, user) ->
  _expand_host_port_user (v :: rest) = Returns (PyTuple [host; port; user]).
Proof.
  destruct v as [| s | z | l]; simpl; try discriminate.
  - now intros [= <- <- <-].
  - destruct l as [| a [| b [| c [| d l]]]]; simpl; try discriminate.
    + now intros [= <- <- <-].
    + now intros [= <- <- <-].
Qed.

(** The first entry is normalised as the docstring says: a bare host, a
    (host, port) pair or a (host, port, user) triple becomes the full triple,
    with [None] for what is missing, whatever follows it in the list. *)
Theorem expand_first_entry_normalised
    (v : pyval) (rest : list pyval) (host port user : pyval) :
  host_triple_spec v = Some (host, port, user) ->
  _expand_host_port_user (v :: rest) = Returns (PyTuple [host; port; user]).
Proof. apply expand_host_entry. Qed.

Lemma expand_first_entry_normalised_witness :
  _expand_host_port_user [PyTuple [PyStr "web1"; PyInt 2222]; PyStr "web2"]
  = Returns (PyTuple [PyStr "web1"; PyInt 2222; PyNone]).
Proof.
  apply (expand_first_entry_normalised (PyTuple [PyStr "web1"; PyInt 2222]) [PyStr "web2"]).
  reflexivity.
Defined.

(** [_expand_host_port_user] returns [None] for an empty list, and raises,
    always [TypeError], exactly when the first entry is [None] or an integer
    (it has no length). *)
Theorem expand_host_port_user_failure (lst : list pyval) :
  _expand_host_port_user [] = Returns PyNone /\
  forall e,
    _expand_host_port_user lst = Raises e <->
    e = TypeError /\
    exists v rest, lst = v :: rest /\ (v = PyNone \/ exists z, v = PyInt z).
Proof.
  split; [reflexivity |]. intros e. split.
  - intros H. split; [now apply (expand_host_port_user_raises lst) |].
    destruct lst as [| v rest]; [discriminate |]. exists v, rest. split; [reflexivity |].
    destruct v as [| s | z | l]; simpl in H; eauto; try discriminate.
    destruct l as [| a [| b [| c l]]]; discriminate.
  - intros (-> & v & rest & -> & [-> | [z ->]]); reflexivity.
Qed.

(** ** [call] on host lists that the loop cannot unpack *)

Lemma call_after_output_dirs (engine : Manager.t -> engine_outcome)
    (hosts : list pyval) (cmdline : pyval) (opts : Options.t) (w w1 : World) :
  output_dirs opts w = (Returns tt, w1) ->
  call engine hosts cmdline opts w
  = (call_tasks hosts cmdline opts ≫= run_or_exit engine) w1.
Proof.
  intros Hdirs. unfold call, call_setup.
  now rewrite bind_assoc_at, (after_setup _ _ _ _ _ Hdirs).
Qed.

Lemma chars_length (s : string) : length (chars s) = String.length s.
Proof. induction s as [| c s IH]; simpl; [reflexivity | now rewrite IH]. Qed.

Lemma unpack3_string (s : string) :
  String.length s ≠ 3 -> unpack3 (PyStr s) = Raises ValueError.
Proof.
  intros Hlen. unfold unpack3. simpl.
  pose proof (chars_length s) as Hc.
  destruct (chars s) as [| a [| b [| c [| d l]]]]; try reflexivity.
  simpl in Hc. congruence.
Qed.

(** An empty host list is not an empty batch: once the output directories
    are in place, [call] raises [TypeError], because [None], which the
    normalisation returns for an empty list, cannot be iterated. *)
Theorem call_empty_hosts (engine : Manager.t -> engine_outcome)
    (cmdline : pyval) (opts : Options.t) (w w1 : World) :
  output_dirs opts w = (Returns tt, w1) ->
  call engine [] cmdline opts w = (Raises TypeError, w1).
Proof. intros Hdirs. now rewrite (call_after_output_dirs _ _ _ _ _ _ Hdirs). Qed.

Lemma call_empty_hosts_witness :
  call engine_all_ok [] (PyStr "uptime") (Options_default 32 60) w0 = (Raises TypeError, w0).
Proof.
  apply (call_empty_hosts engine_all_ok (PyStr "uptime") (Options_default 32 60) w0 w0).
  reflexivity.
Defined.

(** When the first entry is a bare host name whose length is not three,
    [call] raises [ValueError] right after the output directories: no task
    is constructed and the engine is not run, however many hosts follow. *)
Theorem call_bare_host_value_error (engine : Manager.t -> engine_outcome)
    (host : string) (rest : list pyval) (cmdline : pyval) (opts : Options.t) (w w1 : World) :
  String.length host ≠ 3 ->
  output_dirs opts w = (Returns tt, w1) ->
  call engine (PyStr host :: rest) cmdline opts w = (Raises ValueError, w1).
Proof.
  intros Hlen Hdirs. rewrite (call_after_output_dirs _ _ _ _ _ _ Hdirs).
  unfold call_tasks, mbind, M_bind, bind, lift. simpl.
  now rewrite (unpack3_string host Hlen).
Qed.

Lemma call_bare_host_value_error_witness :
  call engine_all_ok [PyStr "web1"; PyStr "web2"; PyStr "web3"] (PyStr "uptime")
       (Options_default 32 60) w0
  = (Raises ValueError, w0).
Proof.
  apply (call_bare_host_value_error engine_all_ok "web1" [PyStr "web2"; PyStr "web3"]
           (PyStr "uptime") (Options_default 32 60) w0 w0).
  - simpl. discriminate.
  - reflexivity.
Defined.

(** ** The task loop of [call] *)

Lemma for_each_cons_returns {S : Type} (item : pyval) (items : list pyval)
    (body : pyval -> S -> M S) (s s1 : S) (w w1 : World) :
  body item s w = (Returns s1, w1) ->
  for_each (item :: items) body s w = for_each items body s1 w1.
Proof. intros H. cbn [for_each]. unfold mbind, M_bind, bind. now rewrite H. Qed.

Lemma for_each_cons_raises {S : Type} (item : pyval) (items : list pyval)
    (body : pyval -> S -> M S) (s : S) (e : exn) (w w1 : World) :
  body item s w = (Raises e, w1) ->
  for_each (item :: items) body s w = (Raises e, w1).
Proof. intros H. cbn [for_each]. unfold mbind, M_bind, bind. now rewrite H. Qed.

Lemma call_body_returns (cmdline : pyval) (opts : Options.t)
    (item host port user : pyval) (manager : Manager.t) (w : World) :
  unpack3 item = Returns (host, port, user) ->
  exists manager' w',
    ('(host, port, user) ← lift (unpack3 item);
     let cmd := _build_call_cmd host port user cmdline
                  (Options.ssh_options opts) (Options.ssh_extra opts) in
     t ← Task_new host port user cmd opts;
     add_task manager t) w = (Returns manager', w') /\
    (exists t, Manager.tasks manager' = Manager.tasks manager ++ [t] /\
               (Task.host t, Task.port t, Task.user t) = (host, port, user) /\
               Task.cmd t = _build_call_cmd host port user cmdline
                              (Options.ssh_options opts) (Options.ssh_extra opts) /\
               Task.stdin t = Options.input_stream opts) /\
    log w' = log w ++ [EvTask host; EvAddTask host] /\ fs w' = fs w.
Proof.
  intros Hitem. unfold mbind, M_bind, bind, lift. rewrite Hitem.
  do 2 eexists. split; [reflexivity |]. simpl. split; [| split; [| reflexivity]].
  - eexists. split; [reflexivity |]. auto.
  - now rewrite <- app_assoc.
Qed.

Lemma call_body_raises (cmdline : pyval) (opts : Options.t)
    (item : pyval) (e : exn) (manager : Manager.t) (w : World) :
  unpack3 item = Raises e ->
  ('(host, port, user) ← lift (unpack3 item);
   let cmd := _build_call_cmd host port user cmdline
                (Options.ssh_options opts) (Options.ssh_extra opts) in
   t ← Task_new host port user cmd opts;
   add_task manager t) w = (Raises e, w).
Proof. intros Hitem. unfold mbind, M_bind, bind, lift. now rewrite Hitem. Qed.

Lemma call_loop_returns (cmdline : pyval) (opts : Options.t)
    (items : list pyval) (triples : list (pyval * pyval * pyval))
    (manager : Manager.t) (w : World) :
  unpack_all items = Returns triples ->
  exists manager' w',
    for_each items
      (fun item manager =>
         '(host, port, user) ← lift (unpack3 item);
         let cmd := _build_call_cmd host port user cmdline
                      (Options.ssh_options opts) (Options.ssh_extra opts) in
         t ← Task_new host port user cmd opts;
         add_task manager t)
      manager w = (Returns manager', w') /\
    map (fun t => (Task.host t, Task.port t, Task.user t)) (Manager.tasks manager')
    = map (fun t => (Task.host t, Task.port t, Task.user t)) (Manager.tasks manager)
      ++ triples /\
    (Forall (fun t => Task.cmd t = _build_call_cmd (Task.host t) (Task.port t) (Task.user t)
                                     cmdline (Options.ssh_options opts)
                                     (Options.ssh_extra opts) /\
                      Task.stdin t = Options.input_stream opts)
            (Manager.tasks manager) ->
     Forall (fun t => Task.cmd t = _build_call_cmd (Task.host t) (Task.port t) (Task.user t)
                                     cmdline (Options.ssh_options opts)
                                     (Options.ssh_extra opts) /\
                      Task.stdin t = Options.input_stream opts)
            (Manager.tasks manager')) /\
    log w' = log w ++ task_events triples /\ fs w' = fs w.
Proof.
  revert triples manager w. induction items as [| item items IH]; intros triples manager w.
  - intros [= <-]. exists manager, w. cbn [for_each task_events flat_map].
    rewrite !app_nil_r. auto.
  - cbn [unpack_all].
    destruct (unpack3 item) as [[[host port] user] | e] eqn:Hitem; [| discriminate].
    destruct (unpack_all items) as [rest | e] eqn:Hrest; [| discriminate].
    intros [= <-].
    destruct (call_body_returns cmdline opts item host port user manager w Hitem)
      as (m1 & w1 & Hstep & (t & Ht & Hid & Hcmd1 & Hin1) & Hlog1 & Hfs1).
    match goal with
    | |- context [for_each (item :: items) ?body _ _] =>
        rewrite (for_each_cons_returns item items body manager m1 w w1 Hstep)
    end.
    destruct (IH rest m1 w1 eq_refl) as (manager' & w' & Hloop & Htasks & Hcmd & Hlog & Hfs).
    exists manager', w'. split; [exact Hloop |].
    split; [| split; [| split]].
    + rewrite Htasks, Ht, map_app. simpl. rewrite Hid. now rewrite <- app_assoc.
    + intros Hall. apply Hcmd. rewrite Ht. apply Forall_app. split; [exact Hall |].
      apply Forall_singleton. injection Hid as -> -> ->. auto.
    + rewrite Hlog, Hlog1. cbn [task_events flat_map]. now rewrite <- !app_assoc.
    + now rewrite Hfs.
Qed.

Lemma call_loop_raises (cmdline : pyval) (opts : Options.t)
    (items : list pyval) (e : exn) (manager : Manager.t) (w : World) :
  unpack_all items = Raises e ->
  (for_each items
     (fun item manager =>
        '(host, port, user) ← lift (unpack3 item);
        let cmd := _build_call_cmd host port user cmdline
                     (Options.ssh_options opts) (Options.ssh_extra opts) in
        t ← Task_new host port user cmd opts;
        add_task manager t)
     manager w).1 = Raises e.
Proof.
  revert manager w. induction items as [| item items IH]; intros manager w; [discriminate |].
  cbn [unpack_all].
  destruct (unpack3 item) as [[[host port] user] | e'] eqn:Hitem.
  - destruct (unpack_all items) as [rest | e'] eqn:Hrest; [discriminate |].
    intros [= <-].
    destruct (call_body_returns cmdline opts item host port user manager w Hitem)
      as (m1 & w1 & Hstep & _).
    match goal with
    | |- context [for_each (item :: items) ?body _ _] =>
        rewrite (for_each_cons_returns item items body manager m1 w w1 Hstep)
    end.
    now apply IH.
  - intros [= <-].
    match goal with
    | |- context [for_each (item :: items) ?body _ _] =>
        now rewrite (for_each_cons_raises item items body manager e' w w
                       (call_body_raises cmdline opts item e' manager w Hitem))
    end.
Qed.

(** [call_tasks] is its loop over the items of the returned value, started
    on a manager without tasks. *)
Lemma call_tasks_loop (hosts : list pyval) (cmdline : pyval) (opts : Options.t) (w : World)
    (returned : pyval) (items : list pyval) :
  _expand_host_port_user hosts = Returns returned -> py_iter returned = Returns items ->
  call_tasks hosts cmdline opts w
  = for_each items
      (fun item manager =>
         '(host, port, user) ← lift (unpack3 item);
         let cmd := _build_call_cmd host port user cmdline
                      (Options.ssh_options opts) (Options.ssh_extra opts) in
         t ← Task_new host port user cmd opts;
         add_task manager t)
      (Manager.mk (Options.limit opts) (Options.timeout opts) (Options.askpass opts)
         (Options.outdir opts) (Options.errdir opts) (Builder.mk CallOutputBuilder []) [])
      w.
Proof.
  intros Hexp Hitems. unfold call_tasks.
  unfold mbind at 1. unfold M_bind, bind, lift. simpl.
  unfold mbind at 1. unfold M_bind, bind. rewrite Hexp.
  unfold mbind at 1. unfold M_bind, bind. now rewrite Hitems.
Qed.

(** The loop of [call] does to the value returned by the normalisation what
    [for host, port, user in ...] says: if every item unpacks, one task per
    item is constructed and submitted, in order, each with the [ssh] command
    built for its own host, port and user and with the configured input
    stream, and nothing else happens; if an item does not unpack, the
    exception of the first such item is raised. *)
Theorem call_tasks_follow_triples
    (hosts : list pyval) (cmdline : pyval) (opts : Options.t) (w : World) (returned : pyval) :
  _expand_host_port_user hosts = Returns returned ->
  (forall triples,
     iter_triples returned = Returns triples ->
     exists manager w',
       call_tasks hosts cmdline opts w = (Returns manager, w') /\
       map (fun t => (Task.host t, Task.port t, Task.user t)) (Manager.tasks manager)
       = triples /\
       Forall (fun t => Task.cmd t = _build_call_cmd (Task.host t) (Task.port t) (Task.user t)
                                       cmdline (Options.ssh_options opts)
                                       (Options.ssh_extra opts) /\
                        Task.stdin t = Options.input_stream opts)
              (Manager.tasks manager) /\
       log w' = log w ++ task_events triples /\ fs w' = fs w) /\
  (forall e,
     iter_triples returned = Raises e ->
     (call_tasks hosts cmdline opts w).1 = Raises e).
Proof.
  intros Hexp. unfold iter_triples. split.
  - intros triples Htriples.
    destruct (py_iter returned) as [items | e] eqn:Hitems; [| discriminate].
    rewrite (call_tasks_loop hosts cmdline opts w returned items Hexp Hitems).
    match goal with
    | |- context [for_each items ?body ?m' ?w'] =>
        destruct (call_loop_returns cmdline opts items triples m' w' Htriples)
          as (manager & w1 & Hloop & Htasks & Hcmd & Hlog & Hfs)
    end.
    exists manager, w1. split; [exact Hloop |]. simpl in *.
    split; [exact Htasks |]. split; [apply Hcmd; constructor | auto].
  - intros e He.
    destruct (py_iter returned) as [items | e'] eqn:Hitems.
    + rewrite (call_tasks_loop hosts cmdline opts w returned items Hexp Hitems).
      now apply call_loop_raises.
    + injection He as <-. unfold call_tasks, mbind, M_bind, bind, lift. simpl.
      now rewrite Hexp, Hitems.
Qed.

Lemma call_tasks_follow_triples_witness :
  exists manager w',
    call_tasks hosts_wrapped (PyStr "uptime") (Options_default 32 60) w0
      = (Returns manager, w') /\
    map (fun t => (Task.host t, Task.port t, Task.user t)) (Manager.tasks manager)
    = [(PyStr "web1", PyInt 22, PyStr "root"); (PyStr "web2", PyInt 22, PyStr "root");
       (PyStr "web3", PyInt 22, PyStr "root")].
Proof.
  destruct (call_tasks_follow_triples hosts_wrapped (PyStr "uptime") (Options_default 32 60) w0
              _ eq_refl) as [Hret _].
  destruct (Hret _ eq_refl) as (manager & w' & Hcall & Htasks & _).
  exists manager, w'. split; [exact Hcall | exact Htasks].
Defined.

(** ** How many tasks [call] can submit *)

Lemma submitted_app (evs1 evs2 : list event) :
  submitted (evs1 ++ evs2) = submitted evs1 + submitted evs2.
Proof.
  induction evs1 as [| ev evs1 IH]; simpl; [reflexivity |].
  destruct ev; simpl; now rewrite IH.
Qed.

Lemma submitted_none (P : event -> bool) (evs : list event) :
  (forall host, P (EvAddTask host) = false) ->
  Forall (fun ev => P ev = true) evs -> submitted evs = 0.
Proof.
  intros HP Hall. induction Hall as [| ev evs Hev _ IH]; [reflexivity |].
  destruct ev; simpl; try exact IH. cbv beta in Hev. rewrite HP in Hev. discriminate.
Qed.

Lemma submits_of_emits {A : Type} (P : event -> bool) (m : M A) :
  (forall host, P (EvAddTask host) = false) -> emits P m -> submits_at_most 0 m.
Proof.
  intros HP Hm w. destruct (Hm w) as (evs & (_ & _ & Hlog) & Hall).
  exists evs. split; [exact Hlog |]. now rewrite (submitted_none P evs HP Hall).
Qed.

Lemma submits_bind {A B : Type} (n1 n2 : nat) (m : M A) (k : A -> M B) :
  submits_at_most n1 m -> (forall a, submits_at_most n2 (k a)) ->
  submits_at_most (n1 + n2) (m ≫= k).
Proof.
  intros Hm Hk w. unfold mbind, M_bind, bind.
  destruct (Hm w) as (evs1 & Hlog1 & Hn1).
  destruct (m w) as [[a | e] w1]; simpl in *.
  - destruct (Hk a w1) as (evs2 & Hlog2 & Hn2).
    exists (evs1 ++ evs2). split; [now rewrite Hlog2, Hlog1, app_assoc |].
    rewrite submitted_app. lia.
  - exists evs1. split; [exact Hlog1 | lia].
Qed.

Lemma submits_for_each {S : Type} (items : list pyval) (body : pyval -> S -> M S) (s : S) :
  (forall item s, submits_at_most 1 (body item s)) ->
  submits_at_most (length items) (for_each items body s).
Proof.
  intros Hbody. revert s. induction items as [| item items IH]; intros s.
  - intros w. exists []. simpl. rewrite app_nil_r. auto.
  - cbn [for_each length]. apply (submits_bind 1 (length items)); [apply Hbody | exact IH].
Qed.

Lemma submits_ext {A : Type} (n : nat) (m m' : M A) :
  (forall w, m w = m' w) -> submits_at_most n m' -> submits_at_most n m.
Proof. intros Heq H w. rewrite Heq. apply H. Qed.

Lemma submits_call_body (cmdline : pyval) (opts : Options.t)
    (item : pyval) (manager : Manager.t) :
  submits_at_most 1
    ('(host, port, user) ← lift (unpack3 item);
     let cmd := _build_call_cmd host port user cmdline
                  (Options.ssh_options opts) (Options.ssh_extra opts) in
     t ← Task_new host port user cmd opts;
     add_task manager t).
Proof.
  intros w.
  assert (Hcases : (exists host port user, unpack3 item = Returns (host, port, user)) \/
                   (exists e, unpack3 item = Raises e)).
  { destruct (unpack3 item) as [[[host port] user] | e]; eauto. }
  destruct Hcases as [(host & port & user & Hitem) | (e & Hitem)].
  - destruct (call_body_returns cmdline opts item host port user manager w Hitem)
      as (m1 & w1 & Hstep & _ & Hlog & _).
    rewrite Hstep. exists [EvTask host; EvAddTask host]. split; [exact Hlog | constructor].
  - rewrite (call_body_raises cmdline opts item e manager w Hitem).
    exists []. simpl. rewrite app_nil_r. auto.
Qed.

(** However many hosts are passed, [call] submits at most three tasks when
    the first entry is a bare host, a pair or a triple: the loop runs over
    the three components of the first entry's triple, not over the hosts. *)
Theorem call_submits_at_most_three (engine : Manager.t -> engine_outcome)
    (v : pyval) (rest : list pyval) (cmdline : pyval) (opts : Options.t) (w : World) :
  host_entry v ->
  exists evs,
    log (call engine (v :: rest) cmdline opts w).2 = log w ++ evs /\
    submitted evs <= 3.
Proof.
  intros [[[host port] user] Hv].
  pose proof (expand_host_entry v rest host port user Hv) as Hexp.
  assert (H : submits_at_most (0 + (3 + 0)) (call engine (v :: rest) cmdline opts)).
  { apply (submits_ext _ _
             (output_dirs opts ≫= fun _ =>
                call_tasks (v :: rest) cmdline opts ≫= run_or_exit engine)).
    - intros w'. unfold call, call_setup. apply bind_assoc_at.
    - apply submits_bind.
      + apply (submits_of_emits (fun ev => negb (task_event ev))); [reflexivity |].
        now apply emits_output_dirs.
      + intros _. apply submits_bind.
        * apply (submits_ext _ _ _
                   (fun w' => call_tasks_loop (v :: rest) cmdline opts w' _ _ Hexp eq_refl)).
          apply (submits_for_each [host; port; user]).
          intros item s. apply submits_call_body.
        * intros manager.
          apply (submits_of_emits (fun ev => match ev with EvRun => true | _ => false end));
            [reflexivity | now apply emits_run_or_exit]. }
  exact (H w).
Qed.

Lemma call_submits_at_most_three_witness :
  exists evs,
    log (call engine_all_ok
           (PyTuple [PyStr "abc"; PyStr "222"; PyStr "usr"]
            :: [PyStr "web1"; PyStr "web2"; PyStr "web3"; PyStr "web4"])
           (PyStr "uptime") (Options_default 32 60) w0).2
    = log w0 ++ evs /\
    submitted evs <= 3.
Proof.
  apply (call_submits_at_most_three engine_all_ok
           (PyTuple [PyStr "abc"; PyStr "222"; PyStr "usr"])
           [PyStr "web1"; PyStr "web2"; PyStr "web3"; PyStr "web4"]
           (PyStr "uptime") (Options_default 32 60) w0).
  eexists. reflexivity.
Defined.

(** ** Directories and tasks: order, creation, refusal *)

(** In every invocation of [call], [copy] and [slurp], whether it returns
    or raises, the events are directory creations followed by task events:
    no directory is created once a task has been constructed. *)
Theorem operations_create_directories_before_tasks
    (py_str : pyval -> string) (engine : Manager.t -> engine_outcome)
    (hosts : list pyval) (cmdline src dst : pyval) (opts : Options.t) :
  dirs_before_tasks (call engine hosts cmdline opts) /\
  dirs_before_tasks (copy py_str engine hosts src dst opts) /\
  dirs_before_tasks (slurp py_str engine hosts src dst opts).
Proof.
  split; [apply call_dirs_before_tasks |].
  split; [apply copy_dirs_before_tasks | apply slurp_dirs_before_tasks].
Qed.


Lemma call_leaves_existing_directories_witness :
  exists tasks,
    log (call engine_all_ok hosts_wrapped (PyStr "uptime") options_out_err w_prepared).2
    = log w_prepared ++ tasks /\
    Forall (fun ev => task_event ev = true) tasks.
Proof.
  apply (call_leaves_existing_directories engine_all_ok hosts_wrapped (PyStr "uptime")
           options_out_err w_prepared).
  - right. exists "out". split; [reflexivity |].
    apply elem_of_union_l, elem_of_singleton. reflexivity.
  - right. exists "err". split; [reflexivity |].
    apply elem_of_union_r, elem_of_singleton. reflexivity.
Defined.


Lemma output_dirs_raises (opts : Options.t) :
  raises_within (fun e => e = TypeError \/ e = OSError) (output_dirs opts).
Proof.
  unfold output_dirs.
  apply raises_within_bind; [| intros _]; apply raises_within_makedirs_if_missing; auto.
Qed.

(** [copy] never returns a mapping and never gets to a task: whatever its
    arguments, it creates the output directories it finds missing and then
    raises, [TypeError] from constructing its result builder without [dst],
    or the error of a directory that could not be created. *)
Theorem copy_never_returns
    (py_str : pyval -> string) (engine : Manager.t -> engine_outcome)
    (hosts : list pyval) (src dst : pyval) (opts : Options.t) (w : World) :
  exists e evs,
    (copy py_str engine hosts src dst opts w).1 = Raises e /\
    (e = TypeError \/ e = OSError) /\
    extends_by w (copy py_str engine hosts src dst opts w).2 evs /\
    Forall (fun ev => task_event ev = false) evs.
Proof.
  assert (Hcopy : copy py_str engine hosts src dst opts w
                  = match output_dirs opts w with
                    | (Returns _, w1) => (Raises TypeError, w1)
                    | (Raises e, w1) => (Raises e, w1)
                    end).
  { unfold copy, copy_setup. rewrite bind_assoc_at. unfold mbind at 1. unfold M_bind, bind.
    destruct (output_dirs opts w) as [[[] | e] w1]; reflexivity. }
  destruct (emits_output_dirs (fun ev => negb (task_event ev)) opts
              (fun p => eq_refl) w) as (evs & Hext & Hall).
  assert (Hdirs : Forall (fun ev => task_event ev = false) evs).
  { eapply Forall_impl; [exact Hall |]. intros ev. simpl. now destruct (task_event ev). }
  pose proof (output_dirs_raises opts w) as Hexn.
  rewrite Hcopy. destruct (output_dirs opts w) as [[[] | e] w1]; simpl in *.
  - exists TypeError, evs. auto.
  - exists e, evs. split; [reflexivity |]. split; [now apply Hexn | auto].
Qed.

(** What comes before the engine run raises nothing but [TypeError],
    [ValueError] and [OSError] in [call], and in [copy] and [slurp] nothing
    but these and [AttributeError]. *)
Theorem setup_exceptions
    (py_str : pyval -> string) (hosts : list pyval) (cmdline src dst : pyval)
    (opts : Options.t) (w : World) (e : exn) :
  ((call_setup hosts cmdline opts w).1 = Raises e ->
     e = TypeError \/ e = ValueError \/ e = OSError) /\
  ((copy_setup py_str hosts src dst opts w).1 = Raises e ->
     e = TypeError \/ e = ValueError \/ e = OSError \/ e = AttributeError) /\
  ((slurp_setup py_str hosts src dst opts w).1 = Raises e ->
     e = TypeError \/ e = ValueError \/ e = OSError \/ e = AttributeError).
Proof.
  split; [| split].
  - apply (call_setup_raises hosts cmdline opts w e).
  - apply (copy_setup_raises py_str hosts src dst opts w e).
  - apply (slurp_setup_raises py_str hosts src dst opts w e).
Qed.

Lemma makedirs_if_missing_returned (d : pyval) (w w1 : World) :
  makedirs_if_missing d w = (Returns tt, w1) ->
  fs w ⊆ fs w1 /\ (truthy d = false \/ exists p, d = PyStr p /\ p ∈ fs w1).
Proof.
  unfold makedirs_if_missing. destruct (truthy d) eqn:Hd.
  - destruct d as [| p | z | l]; try discriminate Hd;
      try (unfold mbind, M_bind, bind; simpl; discriminate).
    unfold mbind, M_bind, bind, os_path_exists, os_makedirs, create_dir.
    destruct (bool_decide (p ∈ fs w)) eqn:Hin.
    + intros [= <-]. apply bool_decide_eq_true in Hin. split; [reflexivity | eauto].
    + simpl. rewrite Hin. destruct (bool_decide (p ∈ denied w)); [discriminate |].
      intros [= <-]. simpl. split; [apply union_subseteq_r |].
      right. exists p. split; [reflexivity |]. apply elem_of_union_l, elem_of_singleton.
      reflexivity.
  - intros [= <-]. split; [reflexivity | auto].
Qed.

Lemma makedirs_if_missing_again (d : pyval) (w : World) :
  (truthy d = false \/ exists p, d = PyStr p /\ p ∈ fs w) ->
  makedirs_if_missing d w = (Returns tt, w).
Proof.
  intros [Hd | (p & -> & Hin)];
    [now apply makedirs_if_missing_unset | now apply makedirs_if_missing_present].
Qed.

(** The directory statements are idempotent: once they have run without an
    error, running them again changes nothing and raises nothing. *)
Theorem output_dirs_idempotent (opts : Options.t) (w w1 : World) :
  output_dirs opts w = (Returns tt, w1) ->
  output_dirs opts w1 = (Returns tt, w1).
Proof.
  unfold output_dirs. unfold mbind at 1. unfold M_bind, bind.
  destruct (makedirs_if_missing (Options.outdir opts) w) as [[[] | e] wa] eqn:Hout;
    [| discriminate].
  intros Herr.
  destruct (makedirs_if_missing_returned _ _ _ Hout) as [_ Ho].
  destruct (makedirs_if_missing_returned _ _ _ Herr) as [Hsub He].
  assert (Ho1 : truthy (Options.outdir opts) = false \/
                exists p, Options.outdir opts = PyStr p /\ p ∈ fs w1).
  { destruct Ho as [Ho | (p & Hp & Hin)]; [auto | right; exists p; split; auto]. }
  rewrite (after_setup _ _ _ _ _ (makedirs_if_missing_again _ _ Ho1)).
  now apply makedirs_if_missing_again.
Qed.

Lemma output_dirs_idempotent_witness :
  output_dirs options_out_err
    (mkWorld ({[ "err" ]} ∪ ({[ "out" ]} ∪ ∅)) ∅ [EvMakedirs "out"; EvMakedirs "err"])
  = (Returns tt,
     mkWorld ({[ "err" ]} ∪ ({[ "out" ]} ∪ ∅)) ∅ [EvMakedirs "out"; EvMakedirs "err"]).
Proof.
  apply (output_dirs_idempotent options_out_err w0). vm_compute. reflexivity.
Defined.



(** ** [slurp]: the destination directory, and a missing [localdir] *)

Lemma bind_ext_l {A B : Type} (m m' : M A) (k : A -> M B) (w : World) :
  (forall w', m w' = m' w') -> (m ≫= k) w = (m' ≫= k) w.
Proof. intros H. unfold mbind, M_bind, bind. now rewrite H. Qed.

Lemma bind_ext_r {A B : Type} (m : M A) (k k' : A -> M B) (w : World) :
  (forall a w', k a w' = k' a w') -> (m ≫= k) w = (m ≫= k') w.
Proof.
  intros H. unfold mbind, M_bind, bind.
  destruct (m w) as [[a | e] w1]; [apply H | reflexivity].
Qed.

Lemma slurp_make_local_dirs_steps (py_str : pyval -> string)
    (hosts : list pyval) (dst : pyval) (opts : Options.t) (w : World) :
  _slurp_make_local_dirs py_str hosts dst opts w
  = (slurp_dst_dir dst ≫= fun _ => slurp_host_dirs py_str hosts opts) w.
Proof.
  unfold _slurp_make_local_dirs, slurp_dst_dir, slurp_host_dirs.
  symmetry. rewrite bind_assoc_at. reflexivity.
Qed.

Lemma slurp_steps (py_str : pyval -> string) (engine : Manager.t -> engine_outcome)
    (hosts : list pyval) (src dst : pyval) (opts : Options.t) (w : World) :
  slurp py_str engine hosts src dst opts w
  = (slurp_dst_dir dst ≫= fun _ =>
       slurp_host_dirs py_str hosts opts ≫= fun _ =>
         output_dirs opts ≫= fun _ =>
           slurp_tasks py_str hosts src dst opts ≫= run_or_exit engine) w.
Proof.
  unfold slurp, slurp_setup. rewrite bind_assoc_at.
  rewrite (bind_ext_l _ _ _ w (slurp_make_local_dirs_steps py_str hosts dst opts)).
  rewrite bind_assoc_at.
  apply bind_ext_r. intros _ w1.
  apply bind_ext_r. intros _ w2. apply bind_assoc_at.
Qed.

Lemma emits_ext {A : Type} (P : event -> bool) (m m' : M A) :
  (forall w, m w = m' w) -> emits P m' -> emits P m.
Proof. intros Heq H w. rewrite Heq. apply H. Qed.

Lemma emits_slurp_host_dirs (P : event -> bool) (py_str : pyval -> string)
    (hosts : list pyval) (opts : Options.t) :
  (forall p, P (EvMkdir p) = true) -> emits P (slurp_host_dirs py_str hosts opts).
Proof.
  intros HP. unfold slurp_host_dirs.
  repeat first
    [ apply emits_ret
    | apply emits_lift
    | apply emits_os_path_exists
    | apply emits_create_dir; exact HP
    | apply emits_for_each; intros ? ?
    | apply emits_bind; [| intros ?]
    | match goal with |- emits _ (match ?x with _ => _ end) => destruct x end ].
Qed.

Lemma emits_slurp_rest (py_str : pyval -> string) (engine : Manager.t -> engine_outcome)
    (hosts : list pyval) (src dst : pyval) (opts : Options.t) :
  emits (fun _ => true)
    (slurp_host_dirs py_str hosts opts ≫= fun _ =>
       output_dirs opts ≫= fun _ =>
         slurp_tasks py_str hosts src dst opts ≫= run_or_exit engine).
Proof.
  apply emits_bind; [now apply emits_slurp_host_dirs | intros _].
  apply emits_bind; [now apply emits_output_dirs | intros _].
  unfold slurp_tasks, Task_new, add_task. solve_emits.
Qed.

(** [slurp] begins with the destination: a destination that is missing and
    can be created is created before anything else, and is still there when
    [slurp] ends, whether it returns or raises. *)
Theorem slurp_creates_destination_first
    (py_str : pyval -> string) (engine : Manager.t -> engine_outcome)
    (hosts : list pyval) (src : pyval) (dst : string) (opts : Options.t) (w : World) :
  dst ∉ fs w -> dst ∉ denied w ->
  exists evs,
    log (slurp py_str engine hosts src (PyStr dst) opts w).2
      = log w ++ EvMakedirs dst :: evs /\
    dst ∈ fs (slurp py_str engine hosts src (PyStr dst) opts w).2.
Proof.
  intros Hfs Hden. rewrite slurp_steps.
  assert (Hdst : slurp_dst_dir (PyStr dst) w
                 = (Returns tt, mkWorld ({[ dst ]} ∪ fs w) (denied w)
                                        (log w ++ [EvMakedirs dst]))).
  { unfold slurp_dst_dir, mbind, M_bind, bind, os_path_exists, os_makedirs, create_dir.
    rewrite (bool_decide_eq_false_2 _ Hfs). simpl.
    now rewrite ?(bool_decide_eq_false_2 _ Hfs), (bool_decide_eq_false_2 _ Hden). }
  rewrite (after_setup _ _ _ _ _ Hdst).
  match goal with |- context [?rest ?w1] =>
    match w1 with mkWorld _ _ _ =>
      destruct (emits_slurp_rest py_str engine hosts src (PyStr dst) opts w1)
        as (evs & (Hsub & _ & Hlog) & _)
    end
  end.
  exists evs. split.
  - rewrite Hlog. simpl. now rewrite <- app_assoc.
  - apply Hsub. simpl. apply elem_of_union_l. now apply elem_of_singleton_2.
Qed.

Lemma slurp_creates_destination_first_witness :
  exists evs,
    log (slurp str_of_string engine_all_ok [PyStr "web1"; PyStr "web2"] (PyStr "/var/log")
           (PyStr "logs") (options_with PyNone) w0).2
      = log w0 ++ EvMakedirs "logs" :: evs /\
    "logs" ∈ fs (slurp str_of_string engine_all_ok [PyStr "web1"; PyStr "web2"]
                   (PyStr "/var/log") (PyStr "logs") (options_with PyNone) w0).2.
Proof.
  apply (slurp_creates_destination_first str_of_string engine_all_ok
           [PyStr "web1"; PyStr "web2"] (PyStr "/var/log") "logs" (options_with PyNone) w0);
    apply not_elem_of_empty.
Defined.

Lemma slurp_host_dirs_value (py_str : pyval -> string)
    (hosts : list pyval) (opts : Options.t) (w : World) :
  Options.localdir opts = None ->
  slurp_host_dirs py_str hosts opts w
  = match items_of hosts with
    | Returns [] => (Returns tt, w)
    | Returns (item :: _) =>
        (Raises (match unpack3 item with
                 | Raises e => e
                 | Returns _ => AttributeError
                 end), w)
    | Raises e => (Raises e, w)
    end.
Proof.
  intros Hld. unfold items_of, slurp_host_dirs, mbind, M_bind, bind, lift.
  destruct (_expand_host_port_user hosts) as [returned | e]; [| reflexivity].
  destruct (py_iter returned) as [[| item items] | e]; [reflexivity | | reflexivity].
  cbn [for_each]. unfold mbind, M_bind, bind.
  destruct (unpack3 item) as [[[host port] user] | e]; [| reflexivity].
  now rewrite Hld.
Qed.

Lemma slurp_host_dirs_without_localdir (py_str : pyval -> string)
    (hosts : list pyval) (opts : Options.t) (w : World) :
  Options.localdir opts = None ->
  (items_of hosts = Returns [] /\ slurp_host_dirs py_str hosts opts w = (Returns tt, w)) \/
  (exists e, slurp_host_dirs py_str hosts opts w = (Raises e, w)).
Proof.
  intros Hld. rewrite (slurp_host_dirs_value py_str hosts opts w Hld).
  destruct (items_of hosts) as [[| item items] | e]; eauto.
Qed.

Lemma slurp_tasks_no_items (py_str : pyval -> string)
    (hosts : list pyval) (src dst : pyval) (opts : Options.t) (w : World) :
  items_of hosts = Returns [] ->
  exists manager, slurp_tasks py_str hosts src dst opts w = (Returns manager, w).
Proof.
  unfold items_of, slurp_tasks. intros Hitems.
  unfold mbind at 1. unfold M_bind, bind, lift. simpl.
  unfold mbind at 1. unfold M_bind, bind.
  destruct (_expand_host_port_user hosts) as [returned | e]; [| discriminate].
  unfold mbind at 1. unfold M_bind, bind. rewrite Hitems. simpl. eauto.
Qed.

(** With an options object that has no [localdir], the default one
    included, [slurp] never constructs or submits a task, whatever the
    hosts: its directory step fails at the first host it unpacks, and when
    there is nothing to unpack there is nothing to run either. *)
Theorem slurp_without_localdir_no_task
    (py_str : pyval -> string) (engine : Manager.t -> engine_outcome)
    (hosts : list pyval) (src dst : pyval) (opts : Options.t) (w : World) :
  Options.localdir opts = None ->
  exists evs,
    extends_by w (slurp py_str engine hosts src dst opts w).2 evs /\
    Forall (fun ev => no_task ev = true) evs.
Proof.
  intros Hld. revert w.
  apply (emits_ext no_task _ _ (slurp_steps py_str engine hosts src dst opts)).
  apply emits_bind.
  { unfold slurp_dst_dir.
    apply emits_bind; [apply emits_os_path_exists | intros [|]];
      [apply emits_ret | now apply emits_create_dir]. }
  intros _ w1.
  destruct (slurp_host_dirs_without_localdir py_str hosts opts w1 Hld)
    as [[Hitems Hdirs] | [e Hdirs]].
  - rewrite (after_setup _ _ _ _ _ Hdirs). revert w1 Hdirs.
    assert (Hrest : emits no_task
                      (output_dirs opts ≫= fun _ =>
                         slurp_tasks py_str hosts src dst opts ≫= run_or_exit engine)).
    { apply emits_bind; [now apply emits_output_dirs | intros _ w2].
      destruct (slurp_tasks_no_items py_str hosts src dst opts w2 Hitems) as [manager Htasks].
      rewrite (after_setup _ _ _ _ _ Htasks). now apply emits_run_or_exit. }
    intros w1 _. apply Hrest.
  - exists []. unfold mbind at 1. unfold M_bind, bind. rewrite Hdirs. simpl.
    split; [apply extends_by_refl | constructor].
Qed.

Lemma slurp_without_localdir_no_task_witness :
  exists evs,
    extends_by w0
      (slurp str_of_string engine_all_ok hosts_three_chars (PyStr "/var/log") (PyStr "logs")
         (Options_default 32 60) w0).2 evs /\
    Forall (fun ev => no_task ev = true) evs.
Proof.
  apply (slurp_without_localdir_no_task str_of_string engine_all_ok hosts_three_chars
           (PyStr "/var/log") (PyStr "logs") (Options_default 32 60) w0).
  reflexivity.
Defined.
